(** * SplitPayPDF: page classification and naming engine

    A shallow embedding of the core of [SplitPayPDF.py]: the pattern
    resolver ([LINE_TOKEN_RE], [build_value_from_line_pattern]), the name
    sanitizer and normalizer, the path allocators, the split orchestrator
    [split_pdf_full] and the sibling operation [extract_pages], followed by
    the properties of these functions.

    Python [str] values are sequences of Unicode code points; the paths are
    those of the POSIX flavour of [os.path]. *)

From Stdlib Require Import ZArith NArith Ascii String DecimalString DecimalNat.
From stdpp Require Import base list gmap.
From Equations Require Import Equations.

Local Open Scope Z_scope.

(** ** Python strings *)

Module Py.

(** A character is a code point, a [str] a list of them. *)
Definition char := N.
Definition str := list char.

(** [u "abc"] is the [str] of an ASCII literal. *)
Definition u (s : string) : str :=
  (λ a, N_of_ascii a) <$> list_ascii_of_string s.

(** The exceptions the program meets; [OSError] names the path that was
    refused. *)
Inductive exn :=
  | ValueError (m : str)
  | IndexError
  | TypeError
  | OSError (p : str).

(** The result of a computation that changes nothing: a value, or the
    exception it raised. *)
Definition result (A : Type) : Type := exn + A.

#[export] Instance result_ret : MRet result := λ A x, inr x.
#[export] Instance result_bind : MBind result := λ A B f r,
  match r with
  | inr x => f x
  | inl e => inl e
  end.
#[export] Instance result_fmap : FMap result := λ A B f r,
  match r with
  | inr x => inr (f x)
  | inl e => inl e
  end.

(** The tables of the interpreter's Unicode database that the program
    consults: [str.isspace] (also the regex class [\s] and the default
    [str.strip]), the decimal digit value (the regex class [\d] and [int]),
    [str.isalnum] (the regex class [\w] is [isalnum] or an underscore) and
    [str.lower], which works on whole strings (a capital sigma is lowered
    according to its position in the word). *)
Class Unicode := {
  isspace : char → bool;
  decimal : char → option Z;
  isalnum : char → bool;
  lower : str → str
}.

(** The tables on the ASCII range. *)
Definition ascii_isspace (c : char) : bool :=
  ((9 <=? c) && (c <=? 13) || (28 <=? c) && (c <=? 32))%N.

Definition ascii_decimal (c : char) : option Z :=
  if ((48 <=? c) && (c <=? 57))%N then Some (Z.of_N c - 48) else None.

Definition ascii_isupper (c : char) : bool := ((65 <=? c) && (c <=? 90))%N.
Definition ascii_islower (c : char) : bool := ((97 <=? c) && (c <=? 122))%N.

Definition ascii_isalnum (c : char) : bool :=
  ((48 <=? c) && (c <=? 57))%N || ascii_isupper c || ascii_islower c.

Definition ascii_lower (c : char) : char :=
  if ascii_isupper c then (c + 32)%N else c.

Definition is_ascii (c : char) : bool := (c <? 128)%N.

(** The database restricted to the code points this development evaluates:
    exact on Basic Latin and Latin-1 Supplement (U+0000 to U+00FF), for
    white space on every code point, and on the further code points listed
    in [latin_isalnum] and [latin_lower_char]; every other code point is
    treated as unassigned. *)
Definition latin_isspace (c : char) : bool :=
  ascii_isspace c
  || bool_decide (c ∈ [0x85; 0xA0; 0x1680; 0x2028; 0x2029; 0x202F; 0x205F; 0x3000]%N)
  || ((0x2000 <=? c) && (c <=? 0x200A))%N.

Definition latin_isalnum (c : char) : bool :=
  ascii_isalnum c
  || bool_decide (c ∈ [0xAA; 0xB2; 0xB3; 0xB5; 0xB9; 0xBA; 0xBC; 0xBD; 0xBE]%N)
  || ((0xC0 <=? c) && (c <=? 0xFF) && negb (c =? 0xD7) && negb (c =? 0xF7))%N
  || bool_decide (c ∈ [0x130; 0x131; 0x191; 0x192; 0x3A9; 0x3C9]%N).

Definition latin_lower_char (c : char) : list char :=
  if ascii_isupper c then [(c + 32)%N]
  else if ((0xC0 <=? c) && (c <=? 0xDE) && negb (c =? 0xD7))%N then [(c + 32)%N]
  else if (c =? 0x130)%N then [0x69; 0x307]%N
  else if (c =? 0x191)%N then [0x192]%N
  else if (c =? 0x3A9)%N then [0x3C9]%N
  else [c].

#[export] Instance latin : Unicode := {
  isspace := latin_isspace;
  decimal := ascii_decimal;
  isalnum := latin_isalnum;
  lower := λ s, s ≫= latin_lower_char
}.

(** What the properties below assume of a database: on the ASCII range it
    is the ASCII one, a decimal digit has a value from 0 to 9, and no white
    space is a decimal digit. *)
Class UnicodeAscii `{Unicode} : Prop := {
  isspace_ascii c : is_ascii c → isspace c = ascii_isspace c;
  decimal_ascii c : is_ascii c → decimal c = ascii_decimal c;
  isalnum_ascii c : is_ascii c → isalnum c = ascii_isalnum c;
  lower_ascii s : Forall is_ascii s → lower s = ascii_lower <$> s;
  decimal_range c d : decimal c = Some d → 0 ≤ d ≤ 9;
  space_not_decimal c : isspace c → decimal c = None
}.

(** What lowering does on the ASCII range, whatever the string: an ASCII
    character of [lower s] is a small letter, or the lowered form of an
    ASCII character of [s].  (The capital I with a dot, U+0130, and the
    Kelvin sign, U+212A, lower to the small letters [i], followed by a
    combining dot, and [k]; no character lowers to another ASCII
    character.) *)
Class UnicodeLower `{Unicode} : Prop := {
  lower_ascii_origin s c :
    c ∈ lower s → is_ascii c →
    ascii_islower c ∨ ∃ d, d ∈ s ∧ is_ascii d ∧ c = ascii_lower d
}.

(** The characters of a normalized ASCII name: a digit, a small letter or
    an underscore. *)
Definition plain (c : char) : bool :=
  ((48 <=? c) && (c <=? 57))%N || ascii_islower c || (c =? 95)%N.

(** The string without its longest prefix in a character class. *)
Fixpoint lstrip_by (p : char → bool) (s : str) : str :=
  match s with
  | c :: t => if p c then lstrip_by p t else s
  | [] => []
  end.

Section Str.
Context `{Unicode}.

(** The regex classes [\d] and [\w]. *)
Definition isdigit (c : char) : bool := bool_decide (is_Some (decimal c)).
Definition isword (c : char) : bool := isalnum c || (c =? 95)%N.

(** [str.strip()] without argument. *)
Definition lstrip (s : str) : str := lstrip_by isspace s.
Definition rstrip (s : str) : str := reverse (lstrip (reverse s)).
Definition strip (s : str) : str := rstrip (lstrip s).

(** [sys.get_int_max_str_digits()], at its default: [int] refuses a string
    of more decimal digits, the leading zeros counted, the white space, the
    sign and the underscores not. *)
Definition int_max_str_digits : nat := 4300.

(** [int(s)] for any string: white space around, one optional sign, then
    decimal digits, where single underscores may separate digits.  Around
    the number [int] skips the white space of the C locale and, beyond
    ASCII, that of the database: the separators U+001C to U+001F are white
    space for [str.isspace] and not for [int].  [None] is the [ValueError]
    of a string that is no number, or that has too many digits. *)
Definition int_isspace (c : char) : bool :=
  if (c <? 127)%N then ((9 <=? c) && (c <=? 13) || (c =? 32))%N else isspace c.

Fixpoint int_body (acc : Z) (after_digit : bool) (s : str) : option Z :=
  match s with
  | [] => if after_digit then Some acc else None
  | c :: t =>
      match decimal c with
      | Some d => int_body (10 * acc + d) true t
      | None => if (c =? 95)%N && after_digit then int_body acc false t else None
      end
  end.

Definition int (s : str) : option Z :=
  if (int_max_str_digits <? length (List.filter isdigit s))%nat then None
  else
    match reverse (lstrip_by int_isspace (reverse (lstrip_by int_isspace s))) with
    | 45%N :: t => Z.opp <$> int_body 0 false t
    | 43%N :: t => int_body 0 false t
    | t => int_body 0 false t
    end.

End Str.

(** [s[start:stop]] and [s[start:]] for indices that are not negative, on
    strings and on lists. *)
Definition slice {A} (start stop : Z) (s : list A) : list A :=
  drop (Z.to_nat start) (take (Z.to_nat stop) s).

Definition slice_from {A} (start : Z) (s : list A) : list A :=
  drop (Z.to_nat start) s.

(** [l[i]]: a negative index counts from the end, and an index outside the
    list raises [IndexError]. *)
Definition getitem {A} (l : list A) (i : Z) : result A :=
  let j := if i <? 0 then Z.of_nat (length l) + i else i in
  if j <? 0 then inl IndexError
  else
    match l !! Z.to_nat j with
    | Some x => inr x
    | None => inl IndexError
    end.

Definition startswith (pre s : str) : bool :=
  bool_decide (take (length pre) s = pre).

Definition endswith (suf s : str) : bool :=
  bool_decide (drop (length s - length suf) s = suf).

(** [s.replace(old, new)]: every occurrence of [old], leftmost first and
    without overlap. *)
Equations? replace (old new s : str) : str by wf (length s) lt :=
replace [] new s := new ++ (s ≫= λ c, c :: new);
replace old new [] := [];
replace old new (c :: t) :=
  if startswith old (c :: t)
  then new ++ replace old new (drop (length old) (c :: t))
  else c :: replace old new t.
Proof. all: rewrite ?length_drop; simpl; lia. Qed.

(** [str(n)] for an integer that is not negative. *)
Definition str_of_nat (n : nat) : str :=
  u (NilEmpty.string_of_uint (Nat.to_uint n)).

(** [s.rfind(c)] for a single character: the last index, or -1. *)
Fixpoint rfind_from (i : Z) (c : char) (s : str) : Z :=
  match s with
  | [] => -1
  | d :: t =>
      let r := rfind_from (i + 1) c t in
      if 0 <=? r then r else if (d =? c)%N then i else -1
  end.

Definition rfind (c : char) (s : str) : Z := rfind_from 0 c s.

(** The line boundaries of [str.splitlines]. *)
Definition islinebreak (c : char) : bool :=
  bool_decide (c ∈ [0x0A; 0x0B; 0x0C; 0x0D; 0x1C; 0x1D; 0x1E; 0x85; 0x2028; 0x2029]%N).

(** [s.splitlines()]: [cur] is the line being read, in reverse; a carriage
    return followed by a line feed is one boundary, and a final boundary
    opens no further line. *)
Fixpoint splitlines_from (cur : str) (s : str) : list str :=
  match s with
  | [] => match cur with [] => [] | _ => [reverse cur] end
  | c :: t =>
      if islinebreak c then
        match c, t with
        | 0x0D%N, 0x0A%N :: t' => reverse cur :: splitlines_skip t
        | _, _ => reverse cur :: splitlines_from [] t
        end
      else splitlines_from (c :: cur) t
  end
with splitlines_skip (s : str) : list str :=
  match s with
  | [] => []
  | _ :: t => splitlines_from [] t
  end.

Definition splitlines (s : str) : list str := splitlines_from [] s.

End Py.

(** ** [os.path], POSIX flavour *)

Module OsPath.
Import Py.

Definition path := str.

Definition sep : char := 47%N.     (* / *)
Definition extsep : char := 46%N.  (* . *)

(** [os.path.join(a, b)] *)
Definition join (a b : path) : path :=
  if startswith [sep] b then b
  else if bool_decide (a = []) || endswith [sep] a then a ++ b
  else a ++ sep :: b.

(** [os.path.splitext(p)]: the extension starts at the last dot of the last
    component, unless only dots precede it there. *)
Definition splitext (p : path) : path * str :=
  let sepIndex := rfind sep p in
  let dotIndex := rfind extsep p in
  if (sepIndex <? dotIndex)
     && existsb (λ c, negb (c =? extsep)%N) (slice (sepIndex + 1) dotIndex p)
  then (slice 0 dotIndex p, slice_from dotIndex p)
  else (p, []).

(** [os.path.basename(p)] *)
Definition basename (p : path) : path := slice_from (rfind sep p + 1) p.

End OsPath.

(** ** Utilities and the pattern builder *)

Module Pattern.
Import Py OsPath.

Section WithUnicode.
Context `{Unicode}.

(** [sanitize_filename]: what is no word character, white space or hyphen
    is removed, the rest is stripped, and its spaces become underscores. *)
Definition sanitize_filename (name : str) : str :=
  replace (u " ") (u "_")
    (strip (List.filter (λ c, isword c || isspace c || (c =? 45)%N) name)).

(** The substitution table of [normalize_folder_name], in the order of the
    dictionary; the keys are the two-character strings of the source. *)
Definition repl : list (str * str) :=
  [ ([0x192; 0xE7]%N, u "c");
    ([0x192; 0xE1]%N, u "c");
    ([0x2248; 0xE6]%N, u "z");
    ([0x2248; 0xB0]%N, u "s");
    ([0x192; 0xEB]%N, u "d");
    ([0x192; 0xE5]%N, u "c");
    ([0x192; 0xDC]%N, u "c");
    ([0x2248; 0x3A9]%N, u "z");
    ([0x2248; 0x2020]%N, u "s");
    ([0x192; 0xEA]%N, u "d") ].

Definition normalize_folder_name (name : str) : str :=
  let name := foldl (λ name kv, replace kv.1 kv.2 name) name repl in
  let name := List.filter isword name in
  lower name.

(** *** [LINE_TOKEN_RE]

    [\[LINE\s+(\d+)(?:\((\d+)(?:/(\d+))?\))?\]].  The three groups of a
    match; an optional group that took no part is [None]. *)
Record token_match := {
  group1 : str;
  group2 : option str;
  group3 : option str
}.

(** The longest prefix in a character class, for the greedy [\s+] and
    [\d+], with what follows it. *)
Fixpoint span (p : char → bool) (s : str) : str * str :=
  match s with
  | c :: t => if p c then let r := span p t in (c :: r.1, r.2) else ([], s)
  | [] => ([], [])
  end.

(** [(?:\((\d+)(?:/(\d+))?\))?\]], what follows the line number. *)
Definition match_range (s : str) : option (option str * option str * str) :=
  match s with
  | 93%N :: rest => Some (None, None, rest)
  | 40%N :: s1 =>
      let (g2, s2) := span isdigit s1 in
      if bool_decide (g2 = []) then None else
      match s2 with
      | 41%N :: 93%N :: rest => Some (Some g2, None, rest)
      | 47%N :: s3 =>
          let (g3, s4) := span isdigit s3 in
          if bool_decide (g3 = []) then None else
          match s4 with
          | 41%N :: 93%N :: rest => Some (Some g2, Some g3, rest)
          | _ => None
          end
      | _ => None
      end
  | _ => None
  end.

(** A match of the expression at the head of [s], with the rest of [s].
    No class of the expression overlaps what may follow it (a digit is no
    white space, and neither is a bracket, a slash or a parenthesis), so the
    greedy choice is the only one that can succeed. *)
Definition LINE_TOKEN_RE (s : str) : option (token_match * str) :=
  if startswith (u "[LINE") s then
    let (ws, s1) := span isspace (drop 5 s) in
    if bool_decide (ws = []) then None else
    let (g1, s2) := span isdigit s1 in
    if bool_decide (g1 = []) then None else
    match match_range s2 with
    | Some (g2, g3, rest) =>
        Some ({| group1 := g1; group2 := g2; group3 := g3 |}, rest)
    | None => None
    end
  else None.

(** A value together with the equation that names it, to match on the
    result of [LINE_TOKEN_RE] and keep what it is the result of. *)
Definition inspect {A : Type} (x : A) : {y : A | x = y} := exist _ x eq_refl.

(** A match leaves less than it was given: the termination of the scans
    below. *)
Ltac match_shortens E :=
  let Hspan := fresh "Hspan" in
  let Hr := fresh "Hr" in
  assert (Hspan : ∀ p s, (length (span p s).2 ≤ length s)%nat)
    by (intros p s; induction s as [|a s IH]; simpl; [lia|];
        destruct (p a); simpl; lia);
  assert (Hr : ∀ s g2 g3 r,
    match_range s = Some (g2, g3, r) → (length r ≤ length s)%nat)
    by (intros s g2 g3 r; unfold match_range; intros Hm;
        repeat match type of Hm with
          | context [span isdigit ?x] =>
              pose proof (Hspan isdigit x); destruct (span isdigit x)
          | context [match ?x with _ => _ end] => destruct x
          end; try discriminate Hm; inversion Hm; subst; simpl in *; lia);
  unfold LINE_TOKEN_RE in E;
  destruct (startswith _ _); [|discriminate];
  match type of E with
  | context [span isspace ?x] =>
      pose proof (Hspan isspace x); destruct (span isspace x) as [? ?]
  end;
  case_bool_decide; [discriminate|];
  match type of E with
  | context [span isdigit ?x] =>
      pose proof (Hspan isdigit x); destruct (span isdigit x) as [? ?]
  end;
  case_bool_decide; [discriminate|];
  match type of E with
  | context [match_range ?x] =>
      let Er := fresh "Er" in
      destruct (match_range x) as [[[? ?] ?]|] eqn:Er; [|discriminate];
      apply Hr in Er
  end;
  inversion E; subst;
  rewrite length_drop in *; simpl in *; lia.

(** [LINE_TOKEN_RE.sub(f, s)]: the matches are taken leftmost first, none
    is empty, and what lies between them is copied; the callback [f] is
    called on a match when it is found, and what it raises ends the
    substitution. *)
Equations? re_sub (f : token_match → result str) (s : str) : result str
  by wf (length s) lt :=
re_sub f [] := inr [];
re_sub f (c :: t) with inspect (LINE_TOKEN_RE (c :: t)) := {
  | exist _ (Some (m, rest)) E =>
      match f m with
      | inr v => (λ r, v ++ r) <$> re_sub f rest
      | inl e => inl e
      end
  | exist _ None E => (λ r, c :: r) <$> re_sub f t }.
Proof. all: try (simpl; lia). match_shortens E. Qed.

(** The pieces a pattern is made of: the characters that are copied and
    the matches of [LINE_TOKEN_RE], taken leftmost first; no match is
    empty. *)
Equations? pieces (s : str) : list (char + token_match) by wf (length s) lt :=
pieces [] := [];
pieces (c :: t) with inspect (LINE_TOKEN_RE (c :: t)) := {
  | exist _ (Some (m, rest)) E => inr m :: pieces rest
  | exist _ None E => inl c :: pieces t }.
Proof. all: try (simpl; lia). match_shortens E. Qed.

(** What a piece contributes to the result of a substitution. *)
Definition piece_value (f : token_match → result str) (x : char + token_match) :
    result str :=
  match x with inl c => inr [c] | inr m => f m end.

(** The well-formed tokens, [[LINE n]], [[LINE n(s)]] and [[LINE n(s/e)]]:
    [ws] is the white space after the keyword, [n] the digits of the line
    number, [range] the digits of the start and of the end position. *)
Definition range_text (range : option (str * option str)) : str :=
  match range with
  | None => []
  | Some (s, None) => u "(" ++ s ++ u ")"
  | Some (s, Some e) => u "(" ++ s ++ u "/" ++ e ++ u ")"
  end.

Definition token (ws n : str) (range : option (str * option str)) : str :=
  u "[LINE" ++ ws ++ n ++ range_text range ++ u "]".

Definition digits (s : str) : Prop := s ≠ [] ∧ Forall isdigit s.
Definition spaces (s : str) : Prop := s ≠ [] ∧ Forall isspace s.

Definition range_digits (range : option (str * option str)) : Prop :=
  match range with
  | None => True
  | Some (s, None) => digits s
  | Some (s, Some e) => digits s ∧ digits e
  end.

(** The test [if g:] on a group: a group that is [None] or empty is false. *)
Definition truthy (g : option str) : option str :=
  match g with
  | Some [] => None
  | _ => g
  end.

(** [int(g)] for a group of a match, with the [ValueError] that [int]
    raises: a group is made of digits, so that the only one is that of the
    digit limit. *)
Definition int_group (g : str) : result Z :=
  match int g with
  | Some n => inr n
  | None =>
      inl (ValueError (u "Exceeds the limit (4300 digits) for integer string conversion"))
  end.

(** The callback [replace_token] of [build_value_from_line_pattern]. *)
Definition replace_token (lines : list str) (m : token_match) : result str :=
  line_no ← int_group (group1 m);
  let start_pos := group2 m in
  let end_pos := group3 m in
  if (line_no <? 0) || (Z.of_nat (length lines) <=? line_no) then mret []
  else
    text ← getitem lines line_no;
    text ←
      match truthy start_pos with
      | Some start_pos =>
          start_pos ← int_group start_pos;
          let start := Z.max (start_pos - 1) 0 in
          match truthy end_pos with
          | Some end_pos =>
              stop ← int_group end_pos;
              mret (slice start stop text)
          | None => mret (slice_from start text)
          end
      | None => mret text
      end;
    mret (strip text).

Definition build_value_from_line_pattern (lines : list str) (pattern : str) :
    result str :=
  re_sub (replace_token lines) pattern.

Definition build_filename_from_line_pattern (lines : list str) (pattern : str) :
    result str :=
  raw ← build_value_from_line_pattern lines pattern;
  if bool_decide (raw = []) then mret []
  else
    let raw := if endswith (u ".pdf") (lower raw) then raw else raw ++ u ".pdf" in
    let (base, ext) := splitext raw in
    mret (sanitize_filename base ++ ext).

End WithUnicode.
End Pattern.

(** ** Storage, log and the effects of a run *)

Module World.
Import Py OsPath.

(** One row of the audit log. *)
Record audit_row := {
  Page : nat;
  Status : str;
  Filename : str;
  FolderRaw : str;
  FolderName : str;
  Note : str
}.

(** The lines the program logs; their wording, and the time stamp that
    [write_app_log] puts before each, are left to the presentation. *)
Inductive msg :=
  | SplitStarted (inp_path : path)
  | ExtractStarted (inp_path : path)
  | NoPages
  | DebugPage (page_no : nat)
  | DebugLine (idx : nat) (line : str)
  | DebugRule
  | NoValidFilename (page_no : nat)
  | Excerpt (page_no : nat) (excerpt : str)
  | WouldSave (page_no : nat) (p : path)
  | Saved (page_no : nat) (out_path : path)
  | AuditSaved (audit_path : path)
  | AuditFailed
  | SafeNoAudit
  | SplitFinished (total success failed : nat)
  | AutoOpenFailed
  | ExtractedSingle (p : Z) (final_path : path)
  | ExtractedPage (p : Z) (final_path : path)
  | ExtractedPages (a b : Z) (final_path : path).

(** What a file holds: the text of the pages of a document, the rows of an
    audit log, the lines of the application log. *)
Inductive record :=
  | PageText (text : str)
  | Row (r : audit_row)
  | LogLine (m : msg).

Inductive node :=
  | Dir
  | File (data : list record).

(** The calls that reach outside the program, in the order they are made. *)
Inductive event :=
  | AppLog (m : msg)                       (* [write_app_log] *)
  | Callback (m : msg)                     (* [log_callback] *)
  | MakeDirs (p : path)                    (* [os.makedirs] *)
  | Save (p : path) (pages : list str)     (* [Document.save] *)
  | ToCsv (p : path) (rows : list audit_row) (* [DataFrame.to_csv] *)
  | Popen (p : path).                      (* [subprocess.Popen] *)

(** The storage maps the paths that exist to what is there; [denied] are
    the paths at which the storage refuses to create or write. *)
Record world := {
  fs : gmap path node;
  denied : gset path;
  trace : list event
}.

(** A computation runs in a world and ends in a world, with a value or
    with the exception it raised. *)
Definition M (A : Type) : Type := world → world * (exn + A).

#[export] Instance M_ret : MRet M := λ A x w, (w, inr x).
#[export] Instance M_bind : MBind M := λ A B f m w,
  match m w with
  | (w', inr x) => f x w'
  | (w', inl e) => (w', inl e)
  end.

Definition raise {A} (e : exn) : M A := λ w, (w, inl e).

(** A computation that changes nothing, in the world. *)
Definition lift {A} (r : result A) : M A := λ w, (w, r).

(** [try: m except Exception: h] *)
Definition try_except {A} (m : M A) (h : M A) : M A := λ w,
  match m w with
  | (w', inl _) => h w'
  | r => r
  end.

Definition emit (e : event) : M () := λ w,
  ({| fs := fs w; denied := denied w; trace := trace w ++ [e] |}, inr ()).

Definition put (p : path) (n : node) : M () := λ w,
  ({| fs := <[p := n]> (fs w); denied := denied w; trace := trace w |}, inr ()).

Definition stat (p : path) : M (option node) := λ w, (w, inr (fs w !! p)).

Definition refused (p : path) : M bool := λ w, (w, inr (bool_decide (p ∈ denied w))).

(** [os.path.exists(p)] *)
Definition path_exists (p : path) : M bool := λ w,
  (w, inr (bool_decide (is_Some (fs w !! p)))).

(** [os.makedirs(p, exist_ok=True)] *)
Definition makedirs (p : path) : M () :=
  emit (MakeDirs p);;
  n ← stat p;
  match n with
  | Some Dir => mret ()
  | Some (File _) => raise (OSError p)
  | None => r ← refused p; if r : bool then raise (OSError p) else put p Dir
  end.

(** Writing a whole file at [p]. *)
Definition write_file (p : path) (data : list record) : M () :=
  n ← stat p;
  r ← refused p;
  match n with
  | Some Dir => raise (OSError p)
  | _ => if r : bool then raise (OSError p) else put p (File data)
  end.

(** [new_doc.save(p)] for a new document with the given pages. *)
Definition save (p : path) (pages : list str) : M () :=
  emit (Save p pages);; write_file p (PageText <$> pages).

(** [pd.DataFrame(rows).to_csv(p, ...)] *)
Definition to_csv (p : path) (rows : list audit_row) : M () :=
  emit (ToCsv p rows);; write_file p (Row <$> rows).

(** What the program reads from its environment: the path of the
    application log, the date of the day, and whether the program that
    opens a folder can be started. *)
Record env := {
  APP_LOG_PATH : path;
  date_str : str;
  has_opener : bool
}.

Section WithEnv.
Context (E : env).

(** [subprocess.Popen([opener, p])]: it raises where the opener cannot be
    started. *)
Definition popen (p : path) : M () :=
  emit (Popen p);;
  if has_opener E then mret () else raise (OSError p).

(** [write_app_log(line)]: the line is appended to the application log,
    which is created when it is not there; a failure is swallowed. *)
Definition write_app_log (line : msg) : M () :=
  emit (AppLog line);;
  try_except
    (n ← stat (APP_LOG_PATH E);
     r ← refused (APP_LOG_PATH E);
     match n with
     | Some Dir => raise (OSError (APP_LOG_PATH E))
     | Some (File data) =>
         if r : bool then raise (OSError (APP_LOG_PATH E))
         else put (APP_LOG_PATH E) (File (data ++ [LogLine line]))
     | None =>
         if r : bool then raise (OSError (APP_LOG_PATH E))
         else put (APP_LOG_PATH E) (File [LogLine line])
     end)
    (mret ()).

(** The local function [log] of the operations; [log_callback] tells
    whether a callback was given. *)
Definition log (log_callback : bool) (m : msg) : M () :=
  write_app_log m;;
  if log_callback then emit (Callback m) else mret ().

End WithEnv.

(** *** The path allocators *)

(** [f"{root}_{counter}{ext}"] *)
Definition numbered (root ext : str) (counter : nat) : str :=
  root ++ u "_" ++ str_of_nat counter ++ ext.

(** The loop [counter = ...; while True: ...; counter += 1] of the two
    allocators: the first candidate from [counter] on that does not exist.
    The candidates differ from one another, so that one of the first
    [S (size m)] is free in a storage [m]: [fuel] is never used up
    ([probe_free] below). *)
Fixpoint probe (exist : path → bool) (candidate : nat → path)
    (fuel counter : nat) : path :=
  match fuel with
  | O => candidate counter
  | S fuel =>
      if exist (candidate counter) then probe exist candidate fuel (S counter)
      else candidate counter
  end.

Definition exists_in (m : gmap path node) (p : path) : bool :=
  bool_decide (is_Some (m !! p)).

Definition unique_auditlog_path (date_str : str) (m : gmap path node) (outdir : path) : path :=
  let base := join outdir (u "audit_log_" ++ date_str ++ u ".csv") in
  if negb (exists_in m base) then base
  else
    probe (exists_in m)
      (λ counter, join outdir (numbered (u "audit_log_" ++ date_str) (u ".csv") counter))
      (S (size m)) 1.

Definition get_unique_auditlog_path (E : env) (outdir : path) : M path := λ w,
  (w, inr (unique_auditlog_path (date_str E) (fs w) outdir)).

Definition unique_path (m : gmap path node) (base_path : path) : path :=
  if negb (exists_in m base_path) then base_path
  else
    let (root, ext) := splitext base_path in
    probe (exists_in m)
      (numbered root ext)
      (S (size m)) 1.

Definition get_unique_path (base_path : path) : M path := λ w,
  (w, inr (unique_path (fs w) base_path)).

(** *** What a computation may do to a world *)

(** The events that only log. *)
Definition is_log (e : event) : bool :=
  match e with
  | AppLog _ | Callback _ => true
  | _ => false
  end.

(** The lines a trace gave to [write_app_log], in order. *)
Definition logged (evs : list event) : list msg :=
  omap (λ e, match e with AppLog m => Some m | _ => None end) evs.

(** What is at the path of the application log after the lines [ms] were
    given to [write_app_log] in the world [w]: the lines are appended to the
    file, which is created for the first of them; where the storage refuses
    the path, or a directory is there, nothing changes. *)
Definition appended (E : env) (w : world) (ms : list msg) : option node :=
  match fs w !! APP_LOG_PATH E with
  | Some Dir => Some Dir
  | Some (File data) =>
      Some (File (if bool_decide (APP_LOG_PATH E ∈ denied w) then data
                  else data ++ (LogLine <$> ms)))
  | None =>
      if bool_decide (APP_LOG_PATH E ∈ denied w) || bool_decide (ms = []) then None
      else Some (File (LogLine <$> ms))
  end.

(** [quiet E w w']: from [w] to [w'] nothing was done but logging; the
    storage is the same but for the application log, where the application
    log was a directory it still is, and otherwise it holds the lines that
    were logged, after what it held. *)
Definition quiet (E : env) (w w' : world) : Prop :=
  denied w' = denied w
  ∧ (∀ p, p ≠ APP_LOG_PATH E → fs w' !! p = fs w !! p)
  ∧ (fs w !! APP_LOG_PATH E = Some Dir → fs w' !! APP_LOG_PATH E = Some Dir)
  ∧ ∃ evs, trace w' = trace w ++ evs ∧ Forall is_log evs
           ∧ fs w' !! APP_LOG_PATH E = appended E w (logged evs).

(** [grows w w']: the trace was extended and no directory was lost. *)
Definition grows (w w' : world) : Prop :=
  denied w' = denied w
  ∧ (∀ p, fs w !! p = Some Dir → fs w' !! p = Some Dir)
  ∧ ∃ evs, trace w' = trace w ++ evs.

(** [always R m]: whatever its outcome, [m] takes a world to one related to
    it by [R].  [returns R m]: moreover [m] raises nothing.  [post m Q]: the
    value [m] returns, when it returns one, satisfies [Q]. *)
Definition always (R : world → world → Prop) {A} (m : M A) : Prop :=
  ∀ w, R w (m w).1.

Definition returns (R : world → world → Prop) {A} (m : M A) : Prop :=
  ∀ w, ∃ w' x, m w = (w', inr x) ∧ R w w'.

Definition post {A} (m : M A) (Q : A → Prop) : Prop :=
  ∀ w w' x, m w = (w', inr x) → Q x.

(** [raises_only P m]: the exception [m] raises, when it raises one,
    satisfies [P]. *)
Definition raises_only (P : exn → Prop) {A} (m : M A) : Prop :=
  ∀ w w' e, m w = (w', inl e) → P e.

End World.

(** ** The operations *)

Module Engine.
Import Py OsPath Pattern World.

(** The naming decision of a page, as the loop of [split_pdf_full] computes
    it before it looks at [safe_mode]: the file name, the raw and the
    normalized folder value, whether the page is resolved and, for a
    resolved page, the target directory.  The decisions are no value of the
    source; the model collects them next to the audit rows to state what
    the two modes have in common. *)
Record decision := {
  d_page : nat;
  d_resolved : bool;
  d_filename : str;
  d_raw_folder : str;
  d_foldername : str;
  d_target_dir : option path
}.

(** The local variables of the loop. *)
Record locals := {
  audit_rows : list audit_row;
  success : nat;
  failed : nat;
  decisions : list decision
}.

(** The dictionary [split_pdf_full] returns, with the audit rows and the
    decisions of the run. *)
Record summary := {
  total : nat;
  r_success : nat;
  r_failed : nat;
  audit_path : option path;
  r_audit_rows : list audit_row;
  r_decisions : list decision
}.

Section WithUnicode.
Context `{Unicode}.
Context (E : env).

(** The loop [while os.path.exists(os.path.join(target_dir, final_name))]
    of [split_pdf_full]; as for [probe], [fuel] is never used up
    ([final_name_loop_free] below). *)
Fixpoint final_name_loop (exist : path → bool) (target_dir : path)
    (base ext : str) (fuel : nat) (final_name : str) (counter : nat) : str :=
  match fuel with
  | O => final_name
  | S fuel =>
      if exist (join target_dir final_name)
      then final_name_loop exist target_dir base ext fuel
             (numbered base ext counter) (S counter)
      else final_name
  end.

Definition unique_final_name (target_dir : path) (filename : str) : M str := λ w,
  let (base, ext) := splitext filename in
  (w, inr (final_name_loop (exists_in (fs w)) target_dir base ext
             (S (S (size (fs w)))) filename 1)).

Section Split.
Context (out_dir : path) (file_pattern folder_pattern : str)
        (save_to_folders safe_mode log_callback : bool)
        (review_dir : option path).

(** The naming decision of the page of text [text]: what the body of the
    loop computes before it looks at [safe_mode], or what it raises in
    computing it. *)
Definition naming_decision (page_index : nat) (text : str) : result decision :=
  let lines := splitlines text in
  filename ← build_filename_from_line_pattern lines file_pattern;
  raw_folder ← build_value_from_line_pattern lines folder_pattern;
  let foldername :=
    if bool_decide (raw_folder = []) then [] else normalize_folder_name raw_folder in
  let resolved :=
    negb (bool_decide (filename = []) || bool_decide (filename = u ".pdf")) in
  mret
    {| d_page := S page_index; d_resolved := resolved; d_filename := filename;
       d_raw_folder := raw_folder; d_foldername := foldername;
       d_target_dir :=
         if resolved then
           Some (if save_to_folders then
                   if bool_decide (foldername = []) then join out_dir (u "unknown")
                   else join out_dir foldername
                 else out_dir)
         else None |}.

(** The body of [for page_index in range(total_pages)], for the page of
    text [text]. *)
Definition split_page (page_index : nat) (text : str) (st : locals) : M locals :=
  let page_no := S page_index in
  let lines := splitlines text in
  (if safe_mode && bool_decide (page_no = 1%nat) then
     log E log_callback (DebugPage page_no);;
     mapM (λ il, log E log_callback (DebugLine il.1 il.2)) (imap pair lines);;
     log E log_callback DebugRule
   else mret ());;
  filename ← lift (build_filename_from_line_pattern lines file_pattern);
  raw_folder ← lift (build_value_from_line_pattern lines folder_pattern);
  let foldername :=
    if bool_decide (raw_folder = []) then [] else normalize_folder_name raw_folder in
  if bool_decide (filename = []) || bool_decide (filename = u ".pdf") then
    let failed := S (failed st) in
    let decisions := decisions st ++
      [{| d_page := page_no; d_resolved := false; d_filename := filename;
          d_raw_folder := raw_folder; d_foldername := foldername;
          d_target_dir := None |}] in
    let excerpt := take 300 (replace [10%N] (u " ") text) in
    log E log_callback (NoValidFilename page_no);;
    write_app_log E (Excerpt page_no excerpt);;
    if safe_mode then
      mret {| audit_rows := audit_rows st ++
                [{| Page := page_no; Status := u "Failed (SAFE mode)";
                    Filename := []; FolderRaw := raw_folder;
                    FolderName := foldername;
                    Note := u "Would be sent to !manual_review" |}];
              success := success st; failed := failed; decisions := decisions |}
    else
      let review_name := u "Unmatched_Page_" ++ str_of_nat page_no ++ u ".pdf" in
      match review_dir with
      | None => raise TypeError
      | Some review_dir =>
          let review_path := join review_dir review_name in
          save review_path [text];;
          mret {| audit_rows := audit_rows st ++
                    [{| Page := page_no; Status := u "Failed";
                        Filename := []; FolderRaw := raw_folder;
                        FolderName := foldername;
                        Note := u "Sent to " ++ review_name |}];
                  success := success st; failed := failed; decisions := decisions |}
      end
  else
    let target_dir :=
      if save_to_folders then
        if bool_decide (foldername = []) then join out_dir (u "unknown")
        else join out_dir foldername
      else out_dir in
    let decisions := decisions st ++
      [{| d_page := page_no; d_resolved := true; d_filename := filename;
          d_raw_folder := raw_folder; d_foldername := foldername;
          d_target_dir := Some target_dir |}] in
    if safe_mode then
      let final_name := filename in
      log E log_callback (WouldSave page_no (join target_dir final_name));;
      mret {| audit_rows := audit_rows st ++
                [{| Page := page_no; Status := u "OK (SAFE mode)";
                    Filename := final_name; FolderRaw := raw_folder;
                    FolderName := foldername; Note := u "Would be saved" |}];
              success := success st; failed := failed st; decisions := decisions |}
    else
      makedirs target_dir;;
      final_name ← unique_final_name target_dir filename;
      let out_path := join target_dir final_name in
      save out_path [text];;
      log E log_callback (Saved page_no out_path);;
      mret {| audit_rows := audit_rows st ++
                [{| Page := page_no; Status := u "OK";
                    Filename := final_name; FolderRaw := raw_folder;
                    FolderName := foldername; Note := [] |}];
              success := S (success st); failed := failed st;
              decisions := decisions |}.

(** [for page_index in range(total_pages)], from [page_index] on. *)
Fixpoint split_pages (page_index : nat) (pages : list str) (st : locals) : M locals :=
  match pages with
  | [] => mret st
  | text :: pages =>
      st ← split_page page_index text st;
      split_pages (S page_index) pages st
  end.

End Split.

(** [split_pdf_full]; [doc] is the opened document, the text of its pages. *)
Definition split_pdf_full (inp_path : path) (doc : list str) (out_dir : path)
    (file_pattern folder_pattern : str)
    (save_to_folders safe_mode auto_open log_callback : bool) : M summary :=
  log E log_callback (SplitStarted inp_path);;
  let total_pages := length doc in
  if bool_decide (total_pages = 0%nat) then
    log E log_callback NoPages;;
    mret {| total := 0; r_success := 0; r_failed := 0; audit_path := None;
            r_audit_rows := []; r_decisions := [] |}
  else
    review_dir ←
      (if negb safe_mode then
         makedirs out_dir;;
         let review_dir := join out_dir (u "!manual_review") in
         makedirs review_dir;;
         mret (Some review_dir)
       else mret None);
    st ← split_pages out_dir file_pattern folder_pattern
           save_to_folders safe_mode log_callback review_dir 0 doc
           {| audit_rows := []; success := 0; failed := 0; decisions := [] |};
    audit_path ←
      (if negb safe_mode then
         audit_path ← get_unique_auditlog_path E out_dir;
         try_except
           (to_csv audit_path (audit_rows st);;
            log E log_callback (AuditSaved audit_path);;
            mret (Some audit_path))
           (log E log_callback AuditFailed;; mret None)
       else
         log E log_callback SafeNoAudit;; mret None);
    log E log_callback (SplitFinished total_pages (success st) (failed st));;
    (if negb safe_mode && auto_open then
       try_except (popen E out_dir) (log E log_callback AutoOpenFailed)
     else mret ());;
    mret {| total := total_pages; r_success := success st; r_failed := failed st;
            audit_path := audit_path;
            r_audit_rows := audit_rows st; r_decisions := decisions st |}.

(** One page, or a range of pages, of [doc] saved as a new document under
    a free name in [out_dir]. *)
Definition extract_to (doc : list str) (out_dir : path) (out_name : str)
    (from_page to_page : Z) : M path :=
  final_path ← get_unique_path (join out_dir out_name);
  save final_path (slice from_page (to_page + 1) doc);;
  mret final_path.

(** [str(p)] for the page numbers of [extract_pages], which are positive
    where they are printed. *)
Definition str_of_Z (p : Z) : str := str_of_nat (Z.to_nat p).


(** [extract_pages] *)
Definition extract_pages (inp_path : path) (doc : list str) (out_dir : path)
    (single_page range_from range_to : str)
    (per_page auto_open log_callback : bool) : M () :=
  log E log_callback (ExtractStarted inp_path);;
  let total := Z.of_nat (length doc) in
  if total =? 0 then log E log_callback NoPages
  else
    makedirs out_dir;;
    (if negb (bool_decide (single_page = [])) then
       match int single_page with
       | None => raise (ValueError (u "invalid literal for int()"))
       | Some p =>
           if (p <? 1) || (total <? p)
           then raise (ValueError (u "Page number out of range."))
           else
             let base_name := (splitext (basename inp_path)).1 in
             let out_name := base_name ++ u "_page_" ++ str_of_Z p ++ u ".pdf" in
             final_path ← extract_to doc out_dir out_name (p - 1) (p - 1);
             log E log_callback (ExtractedSingle p final_path)
       end
     else if negb (bool_decide (range_from = [])) && negb (bool_decide (range_to = [])) then
       match int range_from with
       | None => raise (ValueError (u "invalid literal for int()"))
       | Some a =>
           match int range_to with
           | None => raise (ValueError (u "invalid literal for int()"))
           | Some b =>
               if (a <? 1) || (total <? b) || (b <? a)
               then raise (ValueError (u "Invalid page range."))
               else
                 let base_name := (splitext (basename inp_path)).1 in
                 if per_page then
                   mapM (λ p,
                     let out_name := base_name ++ u "_page_" ++ str_of_Z p ++ u ".pdf" in
                     final_path ← extract_to doc out_dir out_name (p - 1) (p - 1);
                     log E log_callback (ExtractedPage p final_path))
                     (seqZ a (b + 1 - a));;
                   mret ()
                 else
                   let out_name :=
                     base_name ++ u "_pages_" ++ str_of_Z a ++ u "-" ++ str_of_Z b
                       ++ u ".pdf" in
                   final_path ← extract_to doc out_dir out_name (a - 1) (b - 1);
                   log E log_callback (ExtractedPages a b final_path)
           end
       end
     else raise (ValueError (u "Specify single page or a page range.")));;
    if auto_open then
      try_except (popen E out_dir) (log E log_callback AutoOpenFailed)
    else mret ().

End WithUnicode.
End Engine.

(** ** A small world to run the operations in *)

Module Example.
Import Py OsPath World.

Definition E0 : env :=
  {| APP_LOG_PATH := u "/home/u/.config/SplitPayPDF/app_log.txt";
     date_str := u "2024-01-02";
     has_opener := true |}.

(** The empty storage, where nothing is refused. *)
Definition w0 : world := {| fs := ∅; denied := ∅; trace := [] |}.

(** A document of one page, whose text is the one line [A]. *)
Definition one_page : list str := [u "A"].

End Example.

(** ** What a run leaves behind *)

Module Frame.
Import Py OsPath World Engine.

(** [keeps X w w']: what was in the storage of [w] at a path outside [X] is
    in the storage of [w'], as it was. *)
Definition keeps (X : path → Prop) (w w' : world) : Prop :=
  ∀ p n, fs w !! p = Some n → ¬ X p → fs w' !! p = Some n.

(** The documents a trace saved, in the order they were saved. *)
Definition saved (evs : list event) : list (path * list str) :=
  omap (λ e, match e with Save p pages => Some (p, pages) | _ => None end) evs.

(** The name of the review artifact of the page [page_no]. *)
Definition review_name (page_no : nat) : str :=
  u "Unmatched_Page_" ++ str_of_nat page_no ++ u ".pdf".

(** The paths a split may write over: the application log and the review
    artifacts of the output directory. *)
Definition split_writes (E : env) (out_dir : path) (p : path) : Prop :=
  p = APP_LOG_PATH E
  ∨ ∃ page_no, p = join (join out_dir (u "!manual_review")) (review_name page_no).

(** [saves l w w']: from [w] to [w'] the documents [l] were saved, in this
    order, and no other. *)
Definition saves (l : list (path * list str)) (w w' : world) : Prop :=
  saved (trace w') = saved (trace w) ++ l.

(** [documents safe_mode d row]: the audit row [row] records the naming
    decision [d]: the page, the folder values, whether the page resolved and
    the name of the file, which in a live run is the decided name or, where
    that was taken, the decided name with a counter. *)
Definition documents (safe_mode : bool) (d : decision) (row : audit_row) : Prop :=
  Page row = d_page d
  ∧ FolderRaw row = d_raw_folder d
  ∧ FolderName row = d_foldername d
  ∧ Status row = (if d_resolved d then u "OK" else u "Failed")
                 ++ (if safe_mode then u " (SAFE mode)" else [])
  ∧ if d_resolved d then
      Filename row = d_filename d
      ∨ safe_mode = false
        ∧ ∃ counter, (1 ≤ counter)%nat
            ∧ Filename row = numbered (splitext (d_filename d)).1
                               (splitext (d_filename d)).2 counter
    else Filename row = [].

(** Where a live run saves the page of the decision [d] and the audit row
    [row]: under the recorded name in the target directory, or as a review
    artifact. *)
Definition page_path (out_dir : path) (d : decision) (row : audit_row) : path :=
  match d_target_dir d with
  | Some target_dir => join target_dir (Filename row)
  | None => join (join out_dir (u "!manual_review")) (review_name (d_page d))
  end.

End Frame.

(** * Properties *)

(** ** The tables of [latin] satisfy the assumptions *)

Module LatinFacts.
Import Py.

Ltac ascii_cases :=
  repeat match goal with
    | H : Is_true (is_ascii _) |- _ => unfold is_ascii in H; apply Is_true_true in H; apply N.ltb_lt in H
    | H : _ ∈ _ :: _ |- _ => apply elem_of_cons in H as [->|H]
    | H : _ ∈ [] |- _ => by apply elem_of_nil in H
    end.

Lemma latin_isspace_ascii c : is_ascii c → latin_isspace c = ascii_isspace c.
Proof.
  intros Hc. unfold latin_isspace. ascii_cases.
  rewrite bool_decide_eq_false_2 by (intros Hin; ascii_cases; lia).
  replace (0x2000 <=? c)%N with false by (symmetry; apply N.leb_gt; lia).
  by rewrite !orb_false_r.
Qed.

Lemma latin_isalnum_ascii c : is_ascii c → latin_isalnum c = ascii_isalnum c.
Proof.
  intros Hc. unfold latin_isalnum. ascii_cases.
  rewrite !bool_decide_eq_false_2 by (intros Hin; ascii_cases; lia).
  replace (0xC0 <=? c)%N with false by (symmetry; apply N.leb_gt; lia).
  by rewrite !orb_false_r.
Qed.

Lemma latin_lower_ascii s : Forall is_ascii s → s ≫= latin_lower_char = ascii_lower <$> s.
Proof.
  induction 1 as [|c s Hc Hs IH]; [done|].
  rewrite bind_cons, fmap_cons, IH.
  change (ascii_lower c :: (ascii_lower <$> s)) with ([ascii_lower c] ++ (ascii_lower <$> s)).
  f_equal.
  unfold latin_lower_char, ascii_lower. ascii_cases.
  destruct (ascii_isupper c); [done|].
  replace (0xC0 <=? c)%N with false by (symmetry; apply N.leb_gt; lia). simpl.
  repeat (case_match eqn:Hx; [apply N.eqb_eq in Hx; lia|clear Hx]). done.
Qed.

Lemma ascii_decimal_range c d : ascii_decimal c = Some d → 0 ≤ d ≤ 9.
Proof.
  unfold ascii_decimal. case_match eqn:Hc; [|done]. intros [= <-].
  apply andb_prop in Hc as [?%N.leb_le ?%N.leb_le]. lia.
Qed.

Lemma latin_space_not_decimal c : latin_isspace c → ascii_decimal c = None.
Proof.
  unfold ascii_decimal. case_match eqn:Hc; [|done]. intros Hs. exfalso.
  apply andb_prop in Hc as [?%N.leb_le ?%N.leb_le].
  rewrite latin_isspace_ascii in Hs
    by (unfold is_ascii; apply Is_true_true, N.ltb_lt; lia).
  unfold ascii_isspace in Hs.
  apply orb_prop_elim in Hs as [Hs|Hs]; apply andb_prop_elim in Hs as [H1 H2];
    apply Is_true_true in H1, H2; apply N.leb_le in H1, H2; lia.
Qed.

#[export] Instance latin_ascii : UnicodeAscii (H := latin).
Proof.
  split.
  - apply latin_isspace_ascii.
  - done.
  - apply latin_isalnum_ascii.
  - apply latin_lower_ascii.
  - apply ascii_decimal_range.
  - apply latin_space_not_decimal.
Qed.

Lemma latin_lower_origin s c :
  c ∈ s ≫= latin_lower_char → is_ascii c →
  ascii_islower c ∨ ∃ d, d ∈ s ∧ is_ascii d ∧ c = ascii_lower d.
Proof.
  intros (d & Hc & Hd)%list_elem_of_bind Ha.
  unfold latin_lower_char in Hc. unfold ascii_lower.
  destruct (ascii_isupper d) eqn:Hu.
  { apply list_elem_of_singleton in Hc as ->. left.
    unfold ascii_isupper in Hu. unfold ascii_islower.
    apply andb_prop in Hu as [?%N.leb_le ?%N.leb_le].
    apply Is_true_true, andb_true_iff. rewrite !N.leb_le. lia. }
  assert (Hself : c ∈ [d] → ascii_islower c ∨ ∃ d0, d0 ∈ s ∧ is_ascii d0
                            ∧ c = (if ascii_isupper d0 then (d0 + 32)%N else d0)).
  { intros ->%list_elem_of_singleton. right. exists d. by rewrite Hu. }
  assert (Hhigh : ∀ l : list char, Forall (λ x, is_ascii x = false ∨ ascii_islower x) l →
                  c ∈ l → ascii_islower c ∨ ∃ d0, d0 ∈ s ∧ is_ascii d0
                            ∧ c = (if ascii_isupper d0 then (d0 + 32)%N else d0)).
  { intros l Hl Hin. eapply Forall_forall in Hl; [|exact Hin].
    destruct Hl as [Hl|Hl]; [|by left]. by rewrite Hl in Ha. }
  destruct ((0xC0 <=? d) && (d <=? 0xDE) && negb (d =? 0xD7))%N eqn:H1.
  { apply (Hhigh [(d + 32)%N]); [|done]. constructor; [|constructor]. left.
    apply andb_prop in H1 as [[?%N.leb_le ?%N.leb_le]%andb_prop _].
    unfold is_ascii. apply N.ltb_ge. lia. }
  destruct (d =? 0x130)%N.
  { apply (Hhigh [0x69; 0x307]%N); [|done].
    constructor; [by right|]. constructor; [by left|constructor]. }
  destruct (d =? 0x191)%N.
  { apply (Hhigh [0x192]%N); [|done]. constructor; [by left|constructor]. }
  destruct (d =? 0x3A9)%N.
  { apply (Hhigh [0x3C9]%N); [|done]. constructor; [by left|constructor]. }
  by apply Hself.
Qed.

#[export] Instance latin_lower : UnicodeLower (H := latin).
Proof. split. apply latin_lower_origin. Qed.

End LatinFacts.

(** ** The pattern resolver *)

Module PatternFacts.
Import Py OsPath Pattern.

Section Scan.
Context `{Unicode}.

Lemma span_app (p : char → bool) (a b : str) :
  Forall p a → match b with [] => True | c :: _ => p c = false end →
  span p (a ++ b) = (a, b).
Proof.
  intros Ha Hb. induction Ha as [|c a Hc Ha IH]; simpl.
  - destruct b as [|c b]; simpl; [done|]. by rewrite Hb.
  - rewrite IH. by destruct (p c).
Qed.

Lemma re_sub_cons f c t :
  re_sub f (c :: t) =
  match LINE_TOKEN_RE (c :: t) with
  | Some (m, rest) => v ← f m; (λ r, v ++ r) <$> re_sub f rest
  | None => (λ r, c :: r) <$> re_sub f t
  end.
Proof.
  simp re_sub.
  generalize (inspect (LINE_TOKEN_RE (c :: t))).
  intros [[[m rest]|] e]; simpl; by rewrite e.
Qed.

Lemma pieces_cons c t :
  pieces (c :: t) =
  match LINE_TOKEN_RE (c :: t) with
  | Some (m, rest) => inr m :: pieces rest
  | None => inl c :: pieces t
  end.
Proof.
  simp pieces.
  generalize (inspect (LINE_TOKEN_RE (c :: t))).
  intros [[[m rest]|] e]; simpl; by rewrite e.
Qed.

Lemma re_sub_pieces f s :
  re_sub f s = (@List.concat char) <$> mapM (piece_value f) (pieces s).
Proof.
  funelim (re_sub f s).
  - by simp pieces.
  - rewrite pieces_cons, E. simpl.
    destruct (f m) as [e|v]; [done|]. simpl.
    rewrite (H0 v). by destruct (mapM (piece_value f) (pieces rest)).
  - rewrite pieces_cons, E. simpl. rewrite H0.
    by destruct (mapM (piece_value f) (pieces t)).
Qed.

Lemma re_sub_literal f s :
  (∀ a b, s ≠ a ++ u "[LINE" ++ b) → re_sub f s = inr s.
Proof.
  induction s as [|c t IH]; intros Hs; [by simp re_sub|].
  rewrite re_sub_cons. unfold LINE_TOKEN_RE.
  destruct (startswith _ _) eqn:Hst.
  - exfalso. apply (Hs [] (drop 5 (c :: t))).
    unfold startswith in Hst. apply bool_decide_eq_true in Hst.
    change (length (u "[LINE")) with 5%nat in Hst.
    rewrite <- Hst. symmetry. apply (take_drop 5 (c :: t)).
  - rewrite IH; [done|]. intros a b ->. by apply (Hs (c :: a) b).
Qed.

End Scan.

Section Tokens.
Context `{UnicodeAscii}.

Lemma isdigit_ascii c : is_ascii c → isdigit c = bool_decide (is_Some (ascii_decimal c)).
Proof. intros Hc. unfold isdigit. by rewrite decimal_ascii. Qed.

Lemma digit_not_space c : isdigit c → isspace c = false.
Proof.
  unfold isdigit. intros Hd. apply bool_decide_unpack in Hd.
  destruct (isspace c) eqn:Hs; [|done].
  rewrite space_not_decimal in Hd; [by destruct Hd | by rewrite Hs].
Qed.

Lemma span_digits (s rest : str) c :
  Forall isdigit s → is_ascii c → ascii_decimal c = None →
  span isdigit (s ++ c :: rest) = (s, c :: rest).
Proof.
  intros Hs Hc Hd. apply span_app; [done|].
  rewrite isdigit_ascii, Hd by done. apply bool_decide_eq_false. by intros [? ?].
Qed.

Lemma range_text_cons range rest :
  range_text range ++ u "]" ++ rest =
  match range with
  | None => 93%N :: rest
  | Some (s, None) => 40%N :: s ++ 41%N :: 93%N :: rest
  | Some (s, Some e) => 40%N :: s ++ 47%N :: e ++ 41%N :: 93%N :: rest
  end.
Proof.
  destruct range as [[s [e|]]|]; unfold range_text;
    change (u "(") with [40%N]; change (u "/") with [47%N];
    change (u ")") with [41%N]; change (u "]") with [93%N];
    by rewrite <- ?app_assoc.
Qed.

Lemma match_range_text range rest :
  range_digits range →
  match_range (range_text range ++ u "]" ++ rest)
  = Some (fst <$> range, range ≫= snd, rest).
Proof.
  rewrite range_text_cons.
  destruct range as [[s [e|]]|]; unfold match_range; simpl.
  - intros [[Hs1 Hs2] [He1 He2]].
    rewrite (span_digits s _ 47%N) by done.
    rewrite bool_decide_eq_false_2 by done.
    rewrite (span_digits e _ 41%N) by done.
    by rewrite bool_decide_eq_false_2 by done.
  - intros [Hs1 Hs2].
    rewrite (span_digits s _ 41%N) by done.
    by rewrite bool_decide_eq_false_2 by done.
  - done.
Qed.

Lemma LINE_TOKEN_RE_token ws n range rest :
  spaces ws → digits n → range_digits range →
  LINE_TOKEN_RE (token ws n range ++ rest)
  = Some ({| group1 := n; group2 := fst <$> range; group3 := range ≫= snd |}, rest).
Proof.
  intros [Hw1 Hw2] [Hn1 Hn2] Hr. unfold LINE_TOKEN_RE, token.
  rewrite <- !app_assoc.
  assert (Hst : startswith (u "[LINE") (u "[LINE" ++ ws ++ n ++ range_text range ++ u "]" ++ rest) = true).
  { unfold startswith. apply bool_decide_eq_true. by rewrite take_app_length. }
  rewrite Hst.
  change 5%nat with (length (u "[LINE")). rewrite drop_app_length.
  rewrite span_app; [|done|].
  2:{ destruct n as [|d n]; [done|]. simpl. apply digit_not_space.
      by inversion Hn2. }
  rewrite bool_decide_eq_false_2 by done.
  assert (Hsp : span isdigit (n ++ range_text range ++ u "]" ++ rest)
                = (n, range_text range ++ u "]" ++ rest)).
  { rewrite range_text_cons. apply span_app; [done|].
    destruct range as [[s [e|]]|];
      rewrite isdigit_ascii by done; by apply bool_decide_eq_false; intros [? ?]. }
  rewrite Hsp. rewrite bool_decide_eq_false_2 by done.
  by rewrite match_range_text.
Qed.

Lemma build_value_token lines ws n range rest :
  spaces ws → digits n → range_digits range →
  build_value_from_line_pattern lines (token ws n range ++ rest)
  = v ← replace_token lines
          {| group1 := n; group2 := fst <$> range; group3 := range ≫= snd |};
    (λ r, v ++ r) <$> build_value_from_line_pattern lines rest.
Proof.
  intros Hw Hn Hr. unfold build_value_from_line_pattern.
  assert (Hc : ∃ c t, token ws n range ++ rest = c :: t) by (by eexists _, _).
  destruct Hc as (c & t & Hc). rewrite Hc, re_sub_cons, <- Hc.
  by rewrite LINE_TOKEN_RE_token.
Qed.

(** *** [int] on the digits of a group *)

Lemma digit_not_int_space c : isdigit c → int_isspace c = false.
Proof.
  intros Hd. unfold int_isspace. destruct (c <? 127)%N eqn:Hc.
  - apply N.ltb_lt in Hc.
    assert (Ha : is_ascii c) by (unfold is_ascii; apply Is_true_true, N.ltb_lt; lia).
    rewrite isdigit_ascii in Hd by done. apply bool_decide_unpack in Hd as [d Hd].
    unfold ascii_decimal in Hd.
    destruct ((48 <=? c) && (c <=? 57))%N eqn:Hr; [|done].
    apply andb_prop in Hr as [?%N.leb_le ?%N.leb_le].
    apply orb_false_iff. split; [apply andb_false_iff; right; apply N.leb_gt; lia|].
    apply N.eqb_neq. lia.
  - by apply digit_not_space.
Qed.

Lemma digit_not_sign c : isdigit c → c ≠ 45%N ∧ c ≠ 43%N.
Proof.
  intros Hd. split; intros ->; by rewrite isdigit_ascii in Hd.
Qed.

Lemma filter_digits (s : str) : Forall isdigit s → List.filter isdigit s = s.
Proof.
  induction 1 as [|c s Hc _ IH]; [done|]. simpl.
  destruct (isdigit c); [by rewrite IH|done].
Qed.

Lemma int_body_digits (s : str) :
  Forall isdigit s → ∀ acc (after : bool), 0 ≤ acc → after = true ∨ s ≠ [] →
  ∃ k, int_body acc after s = Some k ∧ 0 ≤ k.
Proof.
  induction 1 as [|c s Hc _ IH]; intros acc after Hacc Hs; simpl.
  - destruct Hs as [->|?]; [by exists acc|done].
  - apply bool_decide_unpack in Hc as [d Hd]. rewrite Hd.
    apply decimal_range in Hd as Hr. apply IH; [lia|by left].
Qed.

Lemma sign_match {A} (c : char) (t : str) (a b : str → A) (d : str → A) :
  c ≠ 45%N → c ≠ 43%N →
  match c :: t with
  | 45%N :: t' => a t'
  | 43%N :: t' => b t'
  | t' => d t'
  end = d (c :: t).
Proof.
  intros H45 H43.
  destruct c as [|p]; [done|].
  repeat (destruct p as [p|p|]; try done).
Qed.

(** On a group within the digit limit [int] reads the digits. *)
Lemma int_digits_body (s : str) :
  digits s → (length s ≤ int_max_str_digits)%nat → int s = int_body 0 false s.
Proof.
  intros [Hne Hd] Hlen. unfold int.
  rewrite filter_digits by done.
  replace (int_max_str_digits <? length s)%nat with false
    by (symmetry; apply Nat.ltb_ge; exact Hlen).
  assert (Hstrip : ∀ t : str, t ≠ [] → Forall isdigit t → lstrip_by int_isspace t = t).
  { intros [|c t] _ Ht; [done|]. simpl.
    rewrite digit_not_int_space; [done|]. by inversion Ht. }
  rewrite (Hstrip s) by done.
  rewrite (Hstrip (reverse s)), reverse_involutive.
  2:{ intros Hr. apply Hne. by rewrite <- (reverse_involutive s), Hr. }
  2:{ by apply Forall_reverse. }
  destruct s as [|c t]; [done|].
  destruct (digit_not_sign c) as [H45 H43]; [by inversion Hd|].
  apply (sign_match c t (λ t', Z.opp <$> int_body 0 false t')
           (int_body 0 false) (int_body 0 false)); done.
Qed.

(** A group within the digit limit is a number that is not negative. *)
Lemma int_of_digits (s : str) :
  digits s → (length s ≤ int_max_str_digits)%nat → ∃ k, int s = Some k ∧ 0 ≤ k.
Proof.
  intros Hs Hlen. rewrite int_digits_body by done.
  apply int_body_digits; [apply Hs|lia|right; apply Hs].
Qed.

Lemma int_digits_nonneg (s : str) k : digits s → int s = Some k → 0 ≤ k.
Proof.
  intros Hs Hk.
  destruct (decide (length s ≤ int_max_str_digits)%nat) as [Hlen|Hlen].
  - destruct (int_of_digits s Hs Hlen) as (k' & Hk' & Hpos). congruence.
  - unfold int in Hk. rewrite filter_digits in Hk by apply Hs.
    replace (int_max_str_digits <? length s)%nat with true in Hk
      by (symmetry; apply Nat.ltb_lt; lia). done.
Qed.

(** A group beyond the digit limit is refused. *)
Lemma int_beyond_limit (s : str) :
  Forall isdigit s → (int_max_str_digits < length s)%nat → int s = None.
Proof.
  intros Hd Hlen. unfold int. rewrite filter_digits by done.
  by replace (int_max_str_digits <? length s)%nat with true
    by (symmetry; by apply Nat.ltb_lt).
Qed.

(** [lines[line_no]] inside the list. *)
Lemma getitem_lookup {A} (l : list A) (i : Z) (x : A) :
  0 ≤ i → l !! Z.to_nat i = Some x → getitem l i = inr x.
Proof.
  intros Hi Hx. assert (Hlt : (i <? 0) = false) by (apply Z.ltb_ge; lia).
  unfold getitem. cbv zeta. rewrite Hlt. cbv iota. by rewrite Hlt, Hx.
Qed.

End Tokens.

Section Raises.
Context `{Unicode}.

(** What the callback raises is the [ValueError] of [int]: inside the range
    test [lines[line_no]] raises nothing. *)
Lemma replace_token_raises lines m e :
  replace_token lines m = inl e → ∃ msg, e = ValueError msg.
Proof.
  unfold replace_token, int_group.
  destruct (int (group1 m)) as [k|]; simpl; [|intros [= <-]; by eexists].
  destruct ((k <? 0) || (Z.of_nat (length lines) <=? k)) eqn:Hg; [done|].
  apply orb_false_iff in Hg as [Hk%Z.ltb_ge Hlen%Z.leb_gt].
  destruct (lookup_lt_is_Some_2 lines (Z.to_nat k)) as [text Htext].
  { apply Nat2Z.inj_lt. rewrite Z2Nat.id by done. exact Hlen. }
  assert (Hget : getitem lines k = inr text).
  { assert (Hlt : (k <? 0) = false) by (apply Z.ltb_ge; lia).
    unfold getitem. cbv zeta. rewrite Hlt. cbv iota. by rewrite Hlt, Htext. }
  rewrite Hget. simpl.
  destruct (truthy (group2 m)) as [s|]; simpl; [|done].
  destruct (int s) as [a|]; simpl; [|intros [= <-]; by eexists].
  destruct (truthy (group3 m)) as [s'|]; simpl; [|done].
  destruct (int s') as [b|]; simpl; [done|intros [= <-]; by eexists].
Qed.

Lemma re_sub_raises (P : exn → Prop) f s e :
  (∀ m e, f m = inl e → P e) → re_sub f s = inl e → P e.
Proof.
  intros Hf. funelim (re_sub f s).
  - done.
  - destruct (f m) as [e'|v] eqn:Hm; [intros [= <-]; by eapply Hf|].
    specialize (H0 v). destruct (re_sub f rest) as [e'|r]; [|done].
    simpl. intros [= <-]. by apply H0.
  - destruct (re_sub f t) as [e'|r]; [|done]. simpl. intros [= <-]. by apply H0.
Qed.

Lemma build_value_raises lines pattern e :
  build_value_from_line_pattern lines pattern = inl e → ∃ msg, e = ValueError msg.
Proof.
  apply (re_sub_raises (λ e, ∃ msg, e = ValueError msg)).
  apply replace_token_raises.
Qed.

Lemma build_filename_raises lines pattern e :
  build_filename_from_line_pattern lines pattern = inl e → ∃ msg, e = ValueError msg.
Proof.
  unfold build_filename_from_line_pattern.
  destruct (build_value_from_line_pattern lines pattern) as [e'|raw] eqn:Hraw; simpl.
  - intros [= <-]. by eapply build_value_raises.
  - case_bool_decide; [done|]. by destruct (splitext _).
Qed.

End Raises.
End PatternFacts.

Module PatternClaims.
Import Py OsPath Pattern LatinFacts PatternFacts.

Lemma fmap_app_nil (r : result str) : (λ x : str, [] ++ x) <$> r = r.
Proof. by destruct r. Qed.

Section Claims.
Context `{UnicodeAscii}.

Lemma strip_id (s : str) :
  match s with [] => True | c :: _ => isspace c = false end →
  match reverse s with [] => True | c :: _ => isspace c = false end →
  strip s = s.
Proof.
  intros H1 H2. unfold strip, rstrip, lstrip.
  assert (Hl : ∀ t : str, match t with [] => True | c :: _ => isspace c = false end →
                          lstrip_by isspace t = t).
  { intros [|c t] Ht; simpl; [done|]. by rewrite Ht. }
  by rewrite (Hl s), (Hl (reverse s)), reverse_involutive.
Qed.

Lemma digits_ascii (s : str) :
  s ≠ [] → Forall (λ c, is_ascii c ∧ is_Some (ascii_decimal c)) s → digits s.
Proof.
  intros Hs Ha. split; [done|]. eapply Forall_impl; [exact Ha|].
  intros c [Hc Hd]. rewrite isdigit_ascii by done. by apply bool_decide_pack.
Qed.

Lemma spaces_ascii (s : str) :
  s ≠ [] → Forall (λ c, is_ascii c ∧ ascii_isspace c) s → spaces s.
Proof.
  intros Hs Ha. split; [done|]. eapply Forall_impl; [exact Ha|].
  intros c [Hc Hd]. by rewrite isspace_ascii.
Qed.

(** [int] of one ASCII digit. *)
Lemma int_one_digit (c : char) (d : Z) :
  is_ascii c → ascii_decimal c = Some d → int [c] = Some d.
Proof.
  intros Ha Hd.
  assert (Hdec : decimal c = Some d) by (by rewrite decimal_ascii).
  rewrite int_digits_body.
  - simpl. rewrite Hdec. simpl. first [done | f_equal; lia].
  - apply digits_ascii; [done|]. repeat constructor; [done|by eexists].
  - unfold int_max_str_digits. simpl. lia.
Qed.

(** The callback on a line number that is not in the lines: the range is
    not read. *)
Lemma replace_token_beyond lines n g2 g3 k :
  int n = Some k → Z.of_nat (length lines) ≤ k →
  replace_token lines {| group1 := n; group2 := g2; group3 := g3 |} = inr [].
Proof.
  intros Hk Hlen. unfold replace_token, int_group. cbn [group1 group2 group3].
  rewrite Hk. simpl.
  replace (Z.of_nat (length lines) <=? k) with true by (symmetry; by apply Z.leb_le).
  by rewrite orb_true_r.
Qed.

(** The callback on a number of more digits than [int] takes. *)
Lemma replace_token_refused lines n g2 g3 :
  int n = None →
  ∃ m, replace_token lines {| group1 := n; group2 := g2; group3 := g3 |}
       = inl (ValueError m).
Proof.
  intros Hn. unfold replace_token, int_group. cbn [group1]. rewrite Hn. by eexists.
Qed.

(** C7, amended: for every line array of length L and every well-formed
    token [[LINE n]], with or without a character range, whose line number
    [int] takes (it has at most 4300 digits) and is at least L, the token
    resolves to the empty string, wherever in the pattern it stands, and
    nothing is raised: the range test comes before the line is fetched, and
    the positions of the range are not converted. *)
Theorem out_of_range_line_is_empty lines ws n range rest k :
  spaces ws → digits n → range_digits range →
  int n = Some k → Z.of_nat (length lines) ≤ k →
  build_value_from_line_pattern lines (token ws n range ++ rest)
  = build_value_from_line_pattern lines rest
  ∧ build_value_from_line_pattern lines (token ws n range) = inr [].
Proof.
  intros Hw Hn Hr Hk Hlen.
  pose proof (replace_token_beyond lines n (fst <$> range) (range ≫= snd) k Hk Hlen)
    as Ht.
  split.
  - rewrite build_value_token, Ht by done. simpl. apply fmap_app_nil.
  - rewrite <- (app_nil_r (token ws n range)).
    rewrite build_value_token, Ht by done.
    unfold build_value_from_line_pattern. by simp re_sub.
Qed.

(** A token whose line number has more digits than [int] takes raises
    [ValueError], whatever the lines are. *)
Lemma oversized_line_number_raises lines ws n range rest :
  spaces ws → digits n → range_digits range →
  (int_max_str_digits < length n)%nat →
  ∃ m, build_value_from_line_pattern lines (token ws n range ++ rest)
       = inl (ValueError m).
Proof.
  intros Hw Hn Hr Hlen. rewrite build_value_token by done.
  destruct (replace_token_refused lines n (fst <$> range) (range ≫= snd))
    as [m ->]; [apply int_beyond_limit; [apply Hn|done]|].
  by exists m.
Qed.

Lemma replace_token_range lines n s e text k a b :
  s ≠ [] → e ≠ [] →
  int n = Some k → 0 ≤ k → int s = Some a → int e = Some b →
  lines !! Z.to_nat k = Some text →
  replace_token lines {| group1 := n; group2 := Some s; group3 := Some e |}
  = inr (strip (slice (Z.max (a - 1) 0) b text)).
Proof.
  intros Hs He Hk Hpos Ha Hb Hl. unfold replace_token, int_group.
  cbn [group1 group2 group3]. rewrite Hk. simpl.
  apply lookup_lt_Some in Hl as Hlt.
  replace (k <? 0) with false by (symmetry; apply Z.ltb_ge; lia).
  assert (Hlt' : k < Z.of_nat (length lines))
    by (rewrite <- (Z2Nat.id k) by done; apply inj_lt; exact Hlt).
  replace (Z.of_nat (length lines) <=? k) with false
    by (symmetry; apply Z.leb_gt; exact Hlt').
  simpl. rewrite (getitem_lookup lines k text) by done. simpl.
  destruct s as [|? ?]; [done|]. destruct e as [|? ?]; [done|].
  simpl. rewrite Ha. simpl. by rewrite Hb.
Qed.

Lemma build_value_range lines ws n s e rest text k a b :
  spaces ws → digits n → digits s → digits e →
  int n = Some k → int s = Some a → int e = Some b →
  lines !! Z.to_nat k = Some text →
  build_value_from_line_pattern lines (token ws n (Some (s, Some e)) ++ rest)
  = (λ r, strip (slice (Z.max (a - 1) 0) b text) ++ r)
      <$> build_value_from_line_pattern lines rest.
Proof.
  intros Hw Hn Hs He Hk Ha Hb Hl. rewrite build_value_token by done. simpl.
  pose proof (int_digits_nonneg n k Hn Hk) as Hpos.
  rewrite (replace_token_range _ _ _ _ text k a b)
    by (done || apply Hs || apply He).
  done.
Qed.

(** C2, amended: for every token [[LINE n(s/e)]] with both positions,
    where [int] takes the three numbers (each has at most 4300 digits), and
    every line [text] at index n, the resolver puts in the place of the token
    the slice of [text] from [max(s - 1, 0)] up to the exclusive bound [e],
    stripped of white space; an [e] beyond the end of the line cuts at the
    end; and [[LINE 0(3/5)]] against the line [Hello World] gives [llo], the
    characters at the 1-based positions 3, 4 and 5. *)
Theorem line_range_slice lines ws n s e rest text k a b :
  spaces ws → digits n → digits s → digits e →
  int n = Some k → int s = Some a → int e = Some b →
  lines !! Z.to_nat k = Some text →
  let start := Z.max (a - 1) 0 in
  build_value_from_line_pattern lines (token ws n (Some (s, Some e)) ++ rest)
  = (λ r, strip (slice start b text) ++ r)
      <$> build_value_from_line_pattern lines rest
  ∧ (Z.of_nat (length text) ≤ b → slice start b text = slice_from start text)
  ∧ build_value_from_line_pattern [u "Hello World"] (u "[LINE 0(3/5)]")
    = inr (u "llo").
Proof.
  intros Hw Hn Hs He Hk Ha Hb Hl start.
  pose proof build_value_range as Hgen.
  split; [by eapply Hgen|]. split.
  - intros Hlen. unfold slice, slice_from. f_equal. apply take_ge. lia.
  - pose proof (Hgen [u "Hello World"] (u " ") (u "0") (u "3") (u "5") []
                  (u "Hello World") 0 3 5) as Hx.
    change (u "[LINE 0(3/5)]")
      with (token (u " ") (u "0") (Some (u "3", Some (u "5"))) ++ []).
    rewrite Hx.
    + unfold build_value_from_line_pattern. simp re_sub. simpl. rewrite app_nil_r.
      f_equal. apply strip_id; simpl; by rewrite isspace_ascii.
    + apply spaces_ascii; [done|]. by repeat constructor.
    + apply digits_ascii; [done|]. repeat constructor; by eexists.
    + apply digits_ascii; [done|]. repeat constructor; by eexists.
    + apply digits_ascii; [done|]. repeat constructor; by eexists.
    + by apply int_one_digit.
    + by apply int_one_digit.
    + by apply int_one_digit.
    + done.
Qed.

End Claims.

Lemma lower_case_token_has_no_keyword a b : u "[line 1]" ≠ a ++ u "[LINE" ++ b.
Proof.
  change (u "[line 1]") with [91; 108; 105; 110; 101; 32; 49; 93]%N.
  change (u "[LINE") with [91; 76; 73; 78; 69]%N.
  intros Heq.
  repeat (destruct a as [|? a]; simpl in Heq; [discriminate Heq|];
          injection Heq as _ Heq).
  destruct a; discriminate Heq.
Qed.

(** C6, amended: the keyword of a token is case-sensitive.  For every
    line array, a pattern in which the text [[LINE] does not occur is copied
    unchanged, so that [[line 1]] resolves to itself; and the pieces of a
    pattern, its tokens and the characters between them, are found from the
    pattern alone, whatever the lines are. *)
Theorem token_keyword_is_case_sensitive `{Unicode} lines p :
  (∀ a b, p ≠ a ++ u "[LINE" ++ b) →
  build_value_from_line_pattern lines p = inr p
  ∧ build_value_from_line_pattern lines (u "[line 1]") = inr (u "[line 1]")
  ∧ ∀ q, build_value_from_line_pattern lines q
         = (@List.concat char)
             <$> mapM (piece_value (replace_token lines)) (pieces q).
Proof.
  intros Hp. split; [by apply re_sub_literal|]. split.
  - apply re_sub_literal, lower_case_token_has_no_keyword.
  - intros q. apply re_sub_pieces.
Qed.

Lemma token_keyword_is_case_sensitive_witness :
  (∀ a b, u "[line 1]" ≠ a ++ u "[LINE" ++ b)
  ∧ build_value_from_line_pattern (H := latin) [u "a"; u "b"] (u "[line 1]")
    = inr (u "[line 1]").
Proof.
  split; [exact lower_case_token_has_no_keyword|].
  exact (proj1 (token_keyword_is_case_sensitive (H := latin) [u "a"; u "b"]
                  (u "[line 1]") lower_case_token_has_no_keyword)).
Defined.

(** C6, as it is stated, fails: [[line 1]] is not substituted as
    [[LINE 1]] is. *)
Lemma lower_case_token_not_substituted :
  build_value_from_line_pattern (H := latin) [u "a"; u "b"] (u "[line 1]")
  ≠ build_value_from_line_pattern (H := latin) [u "a"; u "b"] (u "[LINE 1]").
Proof. vm_compute. discriminate. Qed.

(** C2, as it is stated, fails on its example: the result is not [ll]. *)
Lemma hello_world_range_is_not_ll :
  build_value_from_line_pattern (H := latin) [u "Hello World"] (u "[LINE 0(3/5)]")
  ≠ inr (u "ll").
Proof. vm_compute. discriminate. Qed.

Lemma one_space : spaces (H := latin) (u " ").
Proof. split; [done|]. by repeat constructor. Qed.

Lemma one_digit (c : char) :
  is_Some (ascii_decimal c) → digits (H := latin) [c].
Proof.
  intros Hc. split; [done|]. repeat constructor.
  unfold isdigit. simpl. by apply bool_decide_pack.
Qed.

Lemma nines_are_digits (n : nat) : digits (H := latin) (replicate (S n) 57%N).
Proof.
  split; [done|]. apply Forall_replicate. by apply bool_decide_pack.
Qed.

(** C7, as it is stated, fails: against no line at all, the token whose
    line number is written with 4301 nines resolves to nothing; [int]
    raises [ValueError] on the number. *)
Lemma line_number_of_4301_digits_raises :
  ∃ m, build_value_from_line_pattern (H := latin) []
         (token (u " ") (replicate 4301 57%N) None ++ [])
       = inl (ValueError m).
Proof.
  apply (oversized_line_number_raises (H := latin) [] (u " ") (replicate 4301 57%N)
           None []); [exact one_space|apply (nines_are_digits 4300)|exact I|].
  rewrite length_replicate. unfold int_max_str_digits. lia.
Qed.

Lemma line_range_slice_witness :
  build_value_from_line_pattern (H := latin) [u "Hello World"]
    (token (u " ") (u "0") (Some (u "3", Some (u "5"))) ++ [])
  = inr (strip (H := latin) (slice 2 5 (u "Hello World")) ++ []).
Proof.
  refine (proj1 (line_range_slice (H := latin) [u "Hello World"] (u " ") (u "0")
                   (u "3") (u "5") [] (u "Hello World") 0 3 5 one_space
                   (one_digit _ _) (one_digit _ _) (one_digit _ _) _ _ _ _));
    try (by eexists); reflexivity.
Defined.

Lemma out_of_range_line_is_empty_witness :
  build_value_from_line_pattern (H := latin) [u "a"] (token (u " ") (u "7") None)
  = inr [].
Proof.
  refine (proj2 (out_of_range_line_is_empty (H := latin) [u "a"] (u " ") (u "7")
                   None [] 7 one_space (one_digit _ _) I _ _));
    [by eexists|reflexivity|vm_compute; discriminate].
Defined.

End PatternClaims.


(** ** The folder-name normalizer *)

Module NormalizeClaims.
Import Py OsPath Pattern LatinFacts.

Ltac range_prop :=
  rewrite ?orb_true_iff, ?andb_true_iff, ?N.leb_le, ?N.eqb_eq, ?N.ltb_lt.
Ltac range_hyp H :=
  try match type of H with Is_true _ => apply Is_true_true in H end;
  rewrite ?orb_true_iff, ?andb_true_iff, ?N.leb_le, ?N.eqb_eq, ?N.ltb_lt in H.
Ltac range_goal :=
  try match goal with |- Is_true _ => apply Is_true_true end; range_prop.

Lemma replace_head_absent k old new (s : str) :
  k ∉ s → replace (k :: old) new s = s.
Proof.
  induction s as [|c t IH]; intros Hk; simp replace; [done|].
  apply not_elem_of_cons in Hk as [Hc Ht].
  unfold startswith. rewrite bool_decide_eq_false_2.
  - f_equal. by apply IH.
  - simpl. intros [= ? _]. by apply Hc.
Qed.

Lemma plain_ascii c : plain c → is_ascii c.
Proof.
  unfold plain, is_ascii, ascii_islower. intros Hc.
  range_hyp Hc. range_goal. lia.
Qed.

Section Normalize.
Context `{UnicodeAscii}.

Lemma repl_absent (s : str) :
  Forall is_ascii s →
  foldl (λ name kv, replace kv.1 kv.2 name) s repl = s.
Proof.
  intros Hs.
  assert (H1 : (0x192)%N ∉ s).
  { intros Hin. eapply Forall_forall in Hs; [|exact Hin]. done. }
  assert (H2 : (0x2248)%N ∉ s).
  { intros Hin. eapply Forall_forall in Hs; [|exact Hin]. done. }
  unfold repl. cbn [foldl fst snd].
  by repeat (rewrite (replace_head_absent _ _ _ s) by done).
Qed.

Lemma isword_ascii c : is_ascii c → isword c = ascii_isalnum c || (c =? 95)%N.
Proof. intros Hc. unfold isword. by rewrite isalnum_ascii. Qed.

Lemma lower_plain c :
  is_ascii c → ascii_isalnum c || (c =? 95)%N → plain (ascii_lower c).
Proof.
  unfold is_ascii, ascii_isalnum, ascii_lower, plain, ascii_isupper, ascii_islower.
  intros Hc Hw. range_hyp Hc. range_hyp Hw.
  destruct ((65 <=? c) && (c <=? 90))%N eqn:Hu.
  - range_hyp Hu. range_goal. lia.
  - apply andb_false_iff in Hu. rewrite !N.leb_gt in Hu. range_goal. lia.
Qed.

Lemma plain_fixed c : plain c → isword c ∧ ascii_lower c = c.
Proof.
  intros Hc. pose proof (plain_ascii c Hc) as Ha.
  rewrite isword_ascii by done. revert Hc.
  unfold plain, ascii_isalnum, ascii_lower, ascii_isupper, ascii_islower.
  intros Hc. range_hyp Hc. split.
  - range_goal. lia.
  - destruct ((65 <=? c) && (c <=? 90))%N eqn:Hu; [|done].
    range_hyp Hu. lia.
Qed.

Lemma normalize_ascii (s : str) :
  Forall is_ascii s → Forall plain (normalize_folder_name s).
Proof.
  intros Hs. unfold normalize_folder_name. rewrite repl_absent by done.
  assert (Hf : Forall (λ c, is_ascii c ∧ isword c) (List.filter isword s)).
  { apply Forall_forall. intros c Hc. apply list_elem_of_In, filter_In in Hc as [Hc Hw].
    split; [|by rewrite Hw]. eapply Forall_forall in Hs; [done|].
    by apply list_elem_of_In. }
  rewrite lower_ascii by (eapply Forall_impl; [exact Hf|]; by intros ? [? ?]).
  apply Forall_fmap. eapply Forall_impl; [exact Hf|].
  intros c [Ha Hw]. simpl. apply lower_plain; [done|]. by rewrite <- isword_ascii.
Qed.

Lemma normalize_plain (s : str) :
  Forall plain s → normalize_folder_name s = s.
Proof.
  intros Hs. unfold normalize_folder_name.
  assert (Ha : Forall is_ascii s) by (eapply Forall_impl; [exact Hs|apply plain_ascii]).
  rewrite repl_absent by done.
  assert (Hf : List.filter isword s = s).
  { clear Ha. induction Hs as [|c s Hc Hs IH]; [done|]. simpl.
    destruct (plain_fixed c Hc) as [Hw _]. destruct (isword c); [|done]. by rewrite IH. }
  rewrite Hf, lower_ascii by done.
  clear Hf Ha. induction Hs as [|c s Hc Hs IH]; [done|].
  rewrite fmap_cons, IH. f_equal. by apply plain_fixed.
Qed.

Context `{!UnicodeLower}.

(** Whatever the input, the ASCII characters of a normalized name are
    digits, small letters and underscores. *)
Lemma normalize_output_ascii (s : str) :
  Forall (λ c, is_ascii c → plain c) (normalize_folder_name s).
Proof.
  unfold normalize_folder_name. apply Forall_forall. intros c Hc Ha.
  destruct (lower_ascii_origin _ c Hc Ha) as [Hl|(d & Hd & Had & ->)].
  - unfold plain. apply Is_true_true in Hl. rewrite Hl. by rewrite orb_true_r.
  - apply list_elem_of_In, filter_In in Hd as [_ Hw].
    apply lower_plain; [done|]. by rewrite <- isword_ascii, Hw.
Qed.

(** C10, amended: for every input, the output of the folder-name
    normalizer holds no space, dot, slash or backslash, and its ASCII
    characters are digits, small letters and underscores, none of them upper
    case; and on an input of ASCII characters the normalizer is idempotent
    and its output is made of such characters only, all of them word
    characters. *)
Theorem normalize_folder_name_output (s : str) :
  Forall (λ c, (is_ascii c → plain c) ∧ c ∉ [32; 46; 47; 92]%N)
    (normalize_folder_name s)
  ∧ (Forall is_ascii s →
     normalize_folder_name (normalize_folder_name s) = normalize_folder_name s
     ∧ Forall plain (normalize_folder_name s)
     ∧ Forall (λ c, isword c ∧ ¬ ascii_isupper c ∧ c ∉ [32; 46; 47; 92]%N)
         (normalize_folder_name s)).
Proof.
  assert (Hout : ∀ c, (is_ascii c → plain c) → c ∉ [32; 46; 47; 92]%N).
  { intros c Hc Hin.
    repeat (apply elem_of_cons in Hin as [->|Hin]; [exact (Hc I)|]).
    by apply elem_of_nil in Hin. }
  split.
  - eapply Forall_impl; [apply normalize_output_ascii|].
    intros c Hc. split; [done|by apply Hout].
  - intros Hs. pose proof (normalize_ascii s Hs) as Hp.
    split; [by apply normalize_plain|]. split; [done|].
    eapply Forall_impl; [exact Hp|]. intros c Hc.
    destruct (plain_fixed c Hc) as [Hw Hl]. split; [done|]. split.
    + intros Hu. unfold ascii_lower in Hl. destruct (ascii_isupper c); [lia|done].
    + by apply Hout.
Qed.

End Normalize.

Lemma normalize_folder_name_output_witness :
  normalize_folder_name (H := latin) (normalize_folder_name (H := latin) (u "My Folder.1"))
  = normalize_folder_name (H := latin) (u "My Folder.1").
Proof.
  refine (proj1 (proj2 (normalize_folder_name_output (H := latin) (u "My Folder.1")) _)).
  by repeat constructor.
Defined.

(** C10, as it is stated, fails twice: stripping the space of
    [U+0192 U+0020 U+00E7] leaves a key of the table, which a second
    normalization replaces; and lowering [U+0130] leaves the combining dot
    [U+0307], which is no word character. *)
Lemma normalize_folder_name_not_idempotent :
  normalize_folder_name (H := latin)
    (normalize_folder_name (H := latin) [0x192; 0x20; 0xE7]%N)
  ≠ normalize_folder_name (H := latin) [0x192; 0x20; 0xE7]%N
  ∧ normalize_folder_name (H := latin) [0x130]%N = [0x69; 0x307]%N
  ∧ isword (H := latin) 0x307%N = false.
Proof. split; [vm_compute; discriminate|]. split; reflexivity. Qed.

End NormalizeClaims.

(** ** The path allocators *)

Module AllocatorFacts.
Import Py OsPath World.

Lemma u_inj s t : u s = u t → s = t.
Proof.
  unfold u. intros Hst.
  rewrite <- (string_of_list_ascii_of_string s), <- (string_of_list_ascii_of_string t).
  f_equal. revert Hst. generalize (list_ascii_of_string s) (list_ascii_of_string t).
  induction l as [|a l IH]; intros [|b l']; simpl; try done.
  intros [= Hab Hl]. f_equal; [|by apply IH].
  by rewrite <- (ascii_N_embedding a), <- (ascii_N_embedding b), Hab.
Qed.

Lemma str_of_nat_inj n k : str_of_nat n = str_of_nat k → n = k.
Proof.
  unfold str_of_nat. intros Hnk%u_inj.
  assert (Hu : Nat.to_uint n = Nat.to_uint k).
  { apply (inj Some). by rewrite <- !NilEmpty.usu, Hnk. }
  by rewrite <- (DecimalNat.Unsigned.of_to n), <- (DecimalNat.Unsigned.of_to k), Hu.
Qed.

Section Probe.
Context (m : gmap path node) (candidate : nat → path).
Context (candidate_inj : ∀ j k, candidate j = candidate k → j = k).

(** A run of probes ends on a free candidate, or on the last one when
    every candidate it tried exists. *)
Lemma probe_spec fuel counter :
  (∃ k, (counter ≤ k < counter + fuel)%nat
        ∧ (∀ j, (counter ≤ j < k)%nat → exists_in m (candidate j) = true)
        ∧ exists_in m (candidate k) = false
        ∧ probe (exists_in m) candidate fuel counter = candidate k)
  ∨ ((∀ j, (counter ≤ j < counter + fuel)%nat → exists_in m (candidate j) = true)
     ∧ probe (exists_in m) candidate fuel counter = candidate (counter + fuel)%nat).
Proof.
  revert counter. induction fuel as [|fuel IH]; intros counter; simpl.
  - right. split; [intros; lia|]. f_equal. lia.
  - destruct (exists_in m (candidate counter)) eqn:Hc.
    + destruct (IH (S counter)) as [(k & Hk & Hlt & Hfree & Hp)|[Hall Hp]].
      * left. exists k. split; [lia|]. split; [|done].
        intros j Hj. destruct (decide (j = counter)) as [->|]; [done|].
        apply Hlt. lia.
      * right. split.
        -- intros j Hj. destruct (decide (j = counter)) as [->|]; [done|].
           apply Hall. lia.
        -- rewrite Hp. f_equal. lia.
    + left. exists counter. split; [lia|]. split; [intros; lia|]. done.
Qed.

(** No more candidates exist than the storage has paths. *)
Lemma candidates_bounded counter n :
  (∀ j, (counter ≤ j < counter + n)%nat → exists_in m (candidate j) = true) →
  (n ≤ size m)%nat.
Proof.
  intros Hall.
  set (l := candidate <$> seq counter n).
  assert (Hnd : NoDup l).
  { apply NoDup_fmap_2_strong; [|apply NoDup_seq].
    intros j k _ _. apply candidate_inj. }
  assert (Hsub : l ⊆+ elements (dom m)).
  { apply NoDup_submseteq; [done|]. intros p Hp.
    apply list_elem_of_fmap in Hp as (j & -> & Hj).
    apply elem_of_seq in Hj. apply elem_of_elements, elem_of_dom.
    specialize (Hall j ltac:(lia)). unfold exists_in in Hall.
    by apply bool_decide_eq_true in Hall. }
  apply submseteq_length in Hsub.
  rewrite <- size_dom. unfold size, set_size. simpl.
  etrans; [|exact Hsub]. unfold l. by rewrite length_fmap, length_seq.
Qed.

(** [probe_free]: with the fuel the allocators give it, the loop ends on a
    candidate that does not exist. *)
Lemma probe_free counter :
  exists_in m (probe (exists_in m) candidate (S (size m)) counter) = false.
Proof.
  destruct (probe_spec (S (size m)) counter)
    as [(k & _ & _ & Hfree & ->)|[Hall _]]; [done|].
  apply candidates_bounded in Hall. lia.
Qed.

(** The loop returns the first candidate that does not exist. *)
Lemma probe_first counter n :
  (counter ≤ n)%nat →
  (∀ j, (counter ≤ j < n)%nat → exists_in m (candidate j) = true) →
  exists_in m (candidate n) = false →
  probe (exists_in m) candidate (S (size m)) counter = candidate n.
Proof.
  intros Hn Hall Hfree.
  destruct (probe_spec (S (size m)) counter)
    as [(k & Hk & Hlt & Hk' & ->)|[Hall' _]].
  - f_equal. destruct (decide (k < n)%nat) as [?|?].
    + rewrite Hall in Hk' by lia. done.
    + destruct (decide (n < k)%nat); [|lia].
      rewrite Hlt in Hfree by lia. done.
  - apply candidates_bounded in Hall'. lia.
Qed.

End Probe.
Lemma numbered_inj root ext j k : numbered root ext j = numbered root ext k → j = k.
Proof.
  unfold numbered. intros Hjk. apply app_inv_head, app_inv_head in Hjk.
  apply app_inv_tail in Hjk. by apply str_of_nat_inj.
Qed.

(** The path [get_unique_path] returns does not exist. *)
Lemma unique_path_free (m : gmap path node) base_path :
  exists_in m (unique_path m base_path) = false.
Proof.
  unfold unique_path. destruct (exists_in m base_path) eqn:Hb; simpl; [|done].
  destruct (splitext base_path) as [root ext].
  apply probe_free, numbered_inj.
Qed.

(** C5: the path allocator returns the desired path unchanged when nothing
    exists at it; and when the desired path and the names with the suffixes
    _1 to _(N-1) exist and the name with the suffix _N does not, it returns
    the name with the suffix _N, the first free candidate counting up
    from 1. *)
Theorem get_unique_path_first_free (w : world) (base_path : path) :
  let stem_ n := numbered (splitext base_path).1 (splitext base_path).2 n in
  (exists_in (fs w) base_path = false →
   get_unique_path base_path w = (w, inr base_path))
  ∧ (∀ N, (1 ≤ N)%nat →
       exists_in (fs w) base_path = true →
       (∀ k, (1 ≤ k < N)%nat → exists_in (fs w) (stem_ k) = true) →
       exists_in (fs w) (stem_ N) = false →
       get_unique_path base_path w = (w, inr (stem_ N))).
Proof.
  intros stem_. unfold get_unique_path, unique_path. split.
  - by intros ->.
  - intros N HN -> Hall Hfree. simpl. f_equal. f_equal. subst stem_.
    destruct (splitext base_path) as [root ext]. simpl in *.
    apply probe_first; [apply numbered_inj|done..].
Qed.

Lemma get_unique_path_first_free_witness :
  let w := {| fs := {[ u "out/a.pdf" := File []; u "out/a_1.pdf" := File [] ]};
              denied := ∅; trace := [] |} in
  get_unique_path (u "out/a.pdf") w = (w, inr (u "out/a_2.pdf")).
Proof.
  intros w.
  refine (proj2 (get_unique_path_first_free w (u "out/a.pdf")) 2%nat _ _ _ _).
  - lia.
  - reflexivity.
  - intros k Hk. assert (k = 1%nat) as -> by lia. reflexivity.
  - reflexivity.
Defined.

End AllocatorFacts.

(** ** Reasoning about the effects of a computation *)

Module Effects.
Import Py OsPath World.

Lemma bind_run {A B} (m : M A) (f : A → M B) w :
  (m ≫= f) w =
  match m w with
  | (w', inr x) => f x w'
  | (w', inl e) => (w', inl e)
  end.
Proof. done. Qed.

Lemma bind_inr {A B} (m : M A) (f : A → M B) w w' y :
  (m ≫= f) w = (w', inr y) →
  ∃ w1 x, m w = (w1, inr x) ∧ f x w1 = (w', inr y).
Proof.
  rewrite bind_run. destruct (m w) as [w1 [e|x]]; [done|]. by exists w1, x.
Qed.

Section Relations.
Context (R : world → world → Prop) `{!PreOrder R}.

Lemma returns_always {A} (m : M A) : returns R m → always R m.
Proof. intros Hm w. destruct (Hm w) as (w' & x & -> & Hw). done. Qed.

Lemma always_ret {A} (x : A) : always R (mret x).
Proof. intros w. simpl. reflexivity. Qed.

Lemma always_raise {A} e : always R (raise (A := A) e).
Proof. intros w. simpl. reflexivity. Qed.

Lemma always_lift {A} (r : result A) : always R (lift r).
Proof. intros w. simpl. reflexivity. Qed.

Lemma always_bind {A B} (m : M A) (f : A → M B) :
  always R m → (∀ x, always R (f x)) → always R (m ≫= f).
Proof.
  intros Hm Hf w. rewrite bind_run. specialize (Hm w).
  destruct (m w) as [w1 [e|x]]; [done|].
  etrans; [exact Hm|]. apply Hf.
Qed.

Lemma always_try {A} (m h : M A) : always R m → always R h → always R (try_except m h).
Proof.
  intros Hm Hh w. unfold try_except. specialize (Hm w).
  destruct (m w) as [w1 [e|x]]; [|done].
  etrans; [exact Hm|]. apply Hh.
Qed.

Lemma always_mapM {A B} (f : A → M B) (l : list A) :
  (∀ x, always R (f x)) → always R (mapM f l).
Proof.
  intros Hf. induction l as [|a l IH]; simpl; [apply always_ret|].
  apply always_bind; [done|]. intros y.
  apply always_bind; [done|]. intros k. apply always_ret.
Qed.

Lemma returns_ret {A} (x : A) : returns R (mret x).
Proof. intros w. by exists w, x. Qed.

Lemma returns_bind {A B} (m : M A) (f : A → M B) :
  returns R m → (∀ x, returns R (f x)) → returns R (m ≫= f).
Proof.
  intros Hm Hf w. rewrite bind_run.
  destruct (Hm w) as (w1 & x & -> & H1).
  destruct (Hf x w1) as (w2 & y & -> & H2).
  exists w2, y. split; [done|]. by etrans.
Qed.

Lemma returns_mapM {A B} (f : A → M B) (l : list A) :
  (∀ x, returns R (f x)) → returns R (mapM f l).
Proof.
  intros Hf. induction l as [|a l IH]; simpl; [apply returns_ret|].
  apply returns_bind; [done|]. intros y.
  apply returns_bind; [done|]. intros k. apply returns_ret.
Qed.

End Relations.

Lemma post_ret {A} (x : A) (Q : A → Prop) : Q x → post (mret x) Q.
Proof. intros HQ w w' y [= _ <-]. done. Qed.

Lemma post_raise {A} e (Q : A → Prop) : post (raise e) Q.
Proof. intros w w' y. done. Qed.

Lemma post_bind {A B} (m : M A) (f : A → M B) (P : A → Prop) (Q : B → Prop) :
  post m P → (∀ x, P x → post (f x) Q) → post (m ≫= f) Q.
Proof.
  intros Hm Hf w w' y (w1 & x & H1 & H2)%bind_inr.
  eapply Hf; [|exact H2]. eapply Hm, H1.
Qed.

Lemma post_true {A} (m : M A) : post m (λ _, True).
Proof. done. Qed.

Lemma raises_only_returns (R : world → world → Prop) (P : exn → Prop) {A} (m : M A) :
  returns R m → raises_only P m.
Proof. intros Hm w w' e Hrun. destruct (Hm w) as (w1 & x & Heq & _). congruence. Qed.

Lemma raises_only_ret (P : exn → Prop) {A} (x : A) : raises_only P (mret x).
Proof. intros w w' e. done. Qed.

Lemma raises_only_lift (P : exn → Prop) {A} (r : result A) :
  (∀ e, r = inl e → P e) → raises_only P (lift r).
Proof. intros Hr w w' e [= _ ->]. by apply Hr. Qed.

Lemma raises_only_bind (P : exn → Prop) {A B} (m : M A) (f : A → M B) :
  raises_only P m → (∀ x, raises_only P (f x)) → raises_only P (m ≫= f).
Proof.
  intros Hm Hf w w' e. rewrite bind_run.
  destruct (m w) as [w1 [e1|x]] eqn:Hrun.
  - intros [= <- <-]. by eapply Hm.
  - apply Hf.
Qed.

Lemma returns_lift (R : world → world → Prop) `{!Reflexive R} {A} (x : A) :
  returns R (lift (inr x)).
Proof. intros w. by exists w, x. Qed.

Lemma post_lift {A} (r : result A) : post (lift r) (λ x, r = inr x).
Proof. intros w w' x [= _ ->]. done. Qed.

Lemma lift_inr {A} (r : result A) w w' x :
  lift r w = (w', inr x) → w' = w ∧ r = inr x.
Proof. intros [= <- ->]. done. Qed.

End Effects.

(** ** The operations on the storage *)

Module WorldFacts.
Import Py OsPath World Effects.

Lemma logged_app a b : logged (a ++ b) = logged a ++ logged b.
Proof. apply omap_app. Qed.

(** Logging nothing leaves the application log as it is. *)
Lemma appended_nil E w : appended E w [] = fs w !! APP_LOG_PATH E.
Proof.
  unfold appended. destruct (fs w !! APP_LOG_PATH E) as [[|data]|]; [done| |].
  - rewrite app_nil_r. by destruct (bool_decide _).
  - by rewrite orb_true_r.
Qed.

(** Lines logged after lines are appended after them. *)
Lemma appended_app E w w1 ms1 ms2 :
  denied w1 = denied w →
  fs w1 !! APP_LOG_PATH E = appended E w ms1 →
  appended E w1 ms2 = appended E w (ms1 ++ ms2).
Proof.
  intros Hd Hf. unfold appended in *. rewrite Hd, Hf.
  destruct (fs w !! APP_LOG_PATH E) as [[|data]|]; [done| |].
  - destruct (bool_decide (APP_LOG_PATH E ∈ denied w)); [done|].
    by rewrite fmap_app, app_assoc.
  - destruct (bool_decide (APP_LOG_PATH E ∈ denied w)); simpl; [done|].
    destruct ms1 as [|m ms1]; simpl; [done|].
    by rewrite fmap_app.
Qed.

#[export] Instance quiet_preorder E : PreOrder (quiet E).
Proof.
  split.
  - intros w. repeat split; try done. exists []. rewrite app_nil_r.
    split; [done|]. split; [done|]. by rewrite appended_nil.
  - intros w1 w2 w3 (Hd1 & Hf1 & Hl1 & evs1 & Ht1 & He1 & Ha1)
      (Hd2 & Hf2 & Hl2 & evs2 & Ht2 & He2 & Ha2).
    split; [congruence|]. split; [|split].
    + intros p Hp. rewrite Hf2, Hf1 by done. done.
    + auto.
    + exists (evs1 ++ evs2). rewrite Ht2, Ht1, app_assoc. split; [done|].
      split; [by apply Forall_app|].
      rewrite Ha2, logged_app. by apply appended_app.
Qed.

#[export] Instance grows_preorder : PreOrder grows.
Proof.
  split.
  - intros w. repeat split; try done. exists []. by rewrite app_nil_r.
  - intros w1 w2 w3 (Hd1 & Hf1 & evs1 & Ht1) (Hd2 & Hf2 & evs2 & Ht2).
    split; [congruence|]. split; [auto|].
    exists (evs1 ++ evs2). by rewrite Ht2, Ht1, app_assoc.
Qed.

Lemma quiet_grows E w w' : quiet E w w' → grows w w'.
Proof.
  intros (Hd & Hf & Hl & evs & Ht & _). split; [done|]. split; [|by exists evs].
  intros p Hp. destruct (decide (p = APP_LOG_PATH E)) as [->|Hne]; [auto|].
  by rewrite Hf.
Qed.

Section Primitives.
Context (E : env).

Lemma write_app_log_quiet line : returns (quiet E) (write_app_log E line).
Proof.
  intros w. unfold write_app_log, try_except, emit, stat, refused, put, raise.
  repeat (rewrite bind_run; simpl).
  destruct (fs w !! APP_LOG_PATH E) as [[|data]|] eqn:Hn; simpl;
    destruct (bool_decide (APP_LOG_PATH E ∈ denied w)) eqn:Hden; simpl.
  all: eexists _, _; (split; [reflexivity|]); unfold quiet, appended; simpl;
    (split; [done|]);
    (split; [intros p Hp; by rewrite ?lookup_insert_ne by done|]);
    (split; [intros Hx; try done; by rewrite Hx in Hn|]);
    exists [AppLog line]; (split; [done|]); (split; [by repeat constructor|]);
    rewrite Hn, ?Hden; simpl; by rewrite ?lookup_insert_eq.
Qed.

Lemma log_quiet cb m : returns (quiet E) (log E cb m).
Proof.
  unfold log. apply returns_bind; [apply _|apply write_app_log_quiet|].
  intros []. destruct cb; [|apply returns_ret; apply _].
  intros w. eexists _, _. split; [reflexivity|].
  repeat split; try done. exists [Callback m].
  split; [done|]. split; [by repeat constructor|]. simpl. by rewrite appended_nil.
Qed.

Lemma emit_grows e : always grows (emit e).
Proof. intros w. simpl. repeat split; try done. by exists [e]. Qed.

Lemma popen_grows p : always grows (popen E p).
Proof.
  unfold popen. apply always_bind; [apply _|apply emit_grows|].
  intros _. destruct (has_opener E); [apply always_ret|apply always_raise]; apply _.
Qed.

Lemma makedirs_grows p : always grows (makedirs p).
Proof.
  intros w. unfold makedirs, emit, stat, refused, put, raise.
  repeat (rewrite bind_run; simpl).
  destruct (fs w !! p) as [[|data]|] eqn:Hn; simpl;
    repeat (rewrite bind_run; simpl);
    try destruct (bool_decide (p ∈ denied w));
    unfold grows, mret, M_ret; simpl;
    (split; [done|]); (split; [|by exists [MakeDirs p]]);
    intros q Hq; try done.
  destruct (decide (p = q)) as [->|]; [by rewrite lookup_insert_eq|].
  by rewrite lookup_insert_ne.
Qed.

Lemma write_file_grows p data : always grows (write_file p data).
Proof.
  intros w. unfold write_file, stat, refused, put, raise.
  repeat (rewrite bind_run; simpl).
  destruct (fs w !! p) as [[|old]|] eqn:Hn; simpl;
    repeat (rewrite bind_run; simpl);
    try destruct (bool_decide (p ∈ denied w));
    unfold grows, mret, M_ret; simpl;
    (split; [done|]); (split; [|exists []; by rewrite app_nil_r]);
    intros q Hq; try done;
    (destruct (decide (p = q)) as [->|]; [congruence|]);
    by rewrite lookup_insert_ne.
Qed.

Lemma save_grows p pages : always grows (save p pages).
Proof.
  unfold save. apply always_bind; [apply _|apply emit_grows|].
  intros _. apply write_file_grows.
Qed.

Lemma to_csv_grows p rows : always grows (to_csv p rows).
Proof.
  unfold to_csv. apply always_bind; [apply _|apply emit_grows|].
  intros _. apply write_file_grows.
Qed.

Lemma log_grows cb m : always grows (log E cb m).
Proof.
  intros w. destruct (log_quiet cb m w) as (w' & x & -> & Hq). simpl.
  by eapply quiet_grows.
Qed.

Lemma write_app_log_grows m : always grows (write_app_log E m).
Proof.
  intros w. destruct (write_app_log_quiet m w) as (w' & x & -> & Hq). simpl.
  by eapply quiet_grows.
Qed.

End Primitives.
End WorldFacts.

(** ** The split orchestrator *)

Module EngineFacts.
Import Py OsPath Pattern World Effects WorldFacts PatternFacts Engine.

Ltac quiet_step :=
  match goal with
  | |- returns _ (mret _) => apply returns_ret; apply _
  | |- returns _ (lift (inr _)) => apply returns_lift; apply _
  | |- returns _ (log _ _ _) => apply log_quiet
  | |- returns _ (write_app_log _ _) => apply write_app_log_quiet
  | |- returns _ (mapM _ _) => apply returns_mapM; [apply _|intros ?]
  | |- returns _ (_ ≫= _) => apply returns_bind; [apply _| |intros ?]
  | |- returns _ (if ?b then _ else _) => destruct b
  | |- returns _ (match ?x with _ => _ end) => destruct x
  end.

Lemma read_grows {A} (f : world → A) : always grows (λ w, (w, inr (f w))).
Proof. intros w. simpl. reflexivity. Qed.

Ltac grows_step :=
  match goal with
  | |- always _ (mret _) => apply always_ret; apply _
  | |- always _ (raise _) => apply always_raise; apply _
  | |- always _ (lift _) => apply always_lift; apply _
  | |- always _ (log _ _ _) => apply log_grows
  | |- always _ (write_app_log _ _) => apply write_app_log_grows
  | |- always _ (makedirs _) => apply makedirs_grows
  | |- always _ (save _ _) => apply save_grows
  | |- always _ (to_csv _ _) => apply to_csv_grows
  | |- always _ (popen _ _) => apply popen_grows
  | |- always _ (emit _) => apply emit_grows
  | |- always _ (get_unique_path _) => apply read_grows
  | |- always _ (get_unique_auditlog_path _ _) => apply read_grows
  | |- always _ (try_except _ _) => apply always_try; [apply _| |]
  | |- always _ (mapM _ _) => apply always_mapM; [apply _|intros ?]
  | |- always _ (_ ≫= _) => apply always_bind; [apply _| |intros ?]
  | |- always _ (if ?b then _ else _) => destruct b
  | |- always _ (match ?x with _ => _ end) => destruct x
  end.

(** The steps of a computation that only logs, whatever its outcome. *)
Ltac logs_step :=
  match goal with
  | |- always _ (mret _) => apply always_ret; apply _
  | |- always _ (raise _) => apply always_raise; apply _
  | |- always _ (lift _) => apply always_lift; apply _
  | |- always _ (log _ _ _) => apply returns_always, log_quiet
  | |- always _ (write_app_log _ _) => apply returns_always, write_app_log_quiet
  | |- always _ (mapM _ _) => apply always_mapM; [apply _|intros ?]
  | |- always _ (_ ≫= _) => apply always_bind; [apply _| |intros ?]
  | |- always _ (if ?b then _ else _) => destruct b
  | |- always _ (match ?x with _ => _ end) => destruct x
  end.

Ltac post_step :=
  match goal with
  | |- post (mret _) _ => apply post_ret
  | |- post (raise _) _ => apply post_raise
  | |- post (_ ≫= _) _ => eapply post_bind; [apply post_true|intros ? _]
  | |- post (if ?b then _ else _) _ => destruct b
  | |- post (match ?x with _ => _ end) _ => destruct x
  end.

Section Split.
Context `{Unicode} (E : env).
Context (out_dir : path) (file_pattern folder_pattern : str)
        (save_to_folders log_callback : bool).

Abbreviation page safe review :=
  (split_page E out_dir file_pattern folder_pattern save_to_folders safe
     log_callback review).
Abbreviation pages safe review :=
  (split_pages E out_dir file_pattern folder_pattern save_to_folders safe
     log_callback review).
Abbreviation deciding :=
  (naming_decision out_dir file_pattern folder_pattern save_to_folders).

Lemma unique_final_name_grows target_dir filename :
  always grows (unique_final_name target_dir filename).
Proof.
  intros w. unfold unique_final_name. destruct (splitext filename). simpl. reflexivity.
Qed.

(** A page has a naming decision when its two patterns resolve. *)
Lemma naming_decision_inr i text d :
  deciding i text = inr d →
  ∃ filename raw_folder,
    build_filename_from_line_pattern (splitlines text) file_pattern = inr filename
    ∧ build_value_from_line_pattern (splitlines text) folder_pattern = inr raw_folder.
Proof.
  unfold naming_decision.
  destruct (build_filename_from_line_pattern _ _) as [e|filename]; [done|].
  destruct (build_value_from_line_pattern _ _) as [e|raw_folder]; [done|].
  intros _. by eexists _, _.
Qed.

Lemma naming_decision_raises i text e :
  deciding i text = inl e → ∃ msg, e = ValueError msg.
Proof.
  unfold naming_decision.
  destruct (build_filename_from_line_pattern _ _) as [e1|filename] eqn:Hf; simpl.
  { intros [= <-]. by eapply build_filename_raises. }
  destruct (build_value_from_line_pattern _ _) as [e2|raw_folder] eqn:Hr; simpl.
  { intros [= <-]. by eapply build_value_raises. }
  done.
Qed.

(** Whether a page has a naming decision does not depend on its number. *)
Lemma naming_decision_index i j text d :
  deciding i text = inr d → ∃ d', deciding j text = inr d'.
Proof.
  intros (filename & raw_folder & Hf & Hr)%naming_decision_inr.
  unfold naming_decision. rewrite Hf, Hr. by eexists.
Qed.

(** In a simulated run a page only logs, whatever its outcome. *)
Lemma split_page_quiet review i text st :
  always (quiet E) (page true review i text st).
Proof. unfold split_page. simpl. repeat logs_step. Qed.

Lemma split_pages_quiet review i doc st :
  always (quiet E) (pages true review i doc st).
Proof.
  revert i st. induction doc as [|text doc IH]; intros i st; simpl.
  - logs_step.
  - logs_step; [apply split_page_quiet|apply IH].
Qed.

(** In a simulated run a page that has a naming decision returns. *)
Lemma split_page_returns review i text st d :
  deciding i text = inr d → returns (quiet E) (page true review i text st).
Proof.
  intros (filename & raw_folder & Hf & Hr)%naming_decision_inr.
  unfold split_page. rewrite Hf, Hr. simpl. repeat quiet_step.
Qed.

Lemma split_pages_returns review i doc st ds :
  imap (λ k, deciding (i + k)) doc = inr <$> ds →
  returns (quiet E) (pages true review i doc st).
Proof.
  revert i st ds. induction doc as [|text doc IH]; intros i st ds Hds; simpl.
  - quiet_step.
  - destruct ds as [|d ds]; [done|]. simpl in Hds. injection Hds as Hd Hds.
    rewrite Nat.add_0_r in Hd.
    quiet_step; [by eapply split_page_returns|].
    apply (IH (S i) _ ds). etrans; [|exact Hds].
    apply imap_ext. intros k y _. simpl. f_equal. lia.
Qed.

(** In a simulated run a page raises nothing but the [ValueError] of its
    patterns. *)
Lemma split_page_raises review i text st :
  raises_only (λ e, ∃ msg, e = ValueError msg) (page true review i text st).
Proof.
  unfold split_page. simpl.
  apply raises_only_bind.
  { apply (raises_only_returns (quiet E)). repeat quiet_step. }
  intros _. apply raises_only_bind.
  { apply raises_only_lift. apply build_filename_raises. }
  intros filename. apply raises_only_bind.
  { apply raises_only_lift. apply build_value_raises. }
  intros raw_folder. apply (raises_only_returns (quiet E)). repeat quiet_step.
Qed.

Lemma split_pages_raises review i doc st :
  raises_only (λ e, ∃ msg, e = ValueError msg) (pages true review i doc st).
Proof.
  revert i st. induction doc as [|text doc IH]; intros i st; simpl.
  - apply raises_only_ret.
  - apply raises_only_bind; [apply split_page_raises|]. intros st'. apply IH.
Qed.

Lemma split_page_grows safe review i text st :
  always grows (page safe review i text st).
Proof.
  unfold split_page. repeat first [grows_step | apply unique_final_name_grows].
Qed.

Lemma split_pages_grows safe review i doc st :
  always grows (pages safe review i doc st).
Proof.
  revert i st. induction doc as [|text doc IH]; intros i st; simpl.
  - grows_step.
  - grows_step; [apply split_page_grows|apply IH].
Qed.

(** What a page adds to the local variables, in either mode. *)
Lemma split_page_post safe review i text st :
  post (page safe review i text st)
    (λ st', ∃ d, deciding i text = inr d
            ∧ decisions st' = decisions st ++ [d]
            ∧ length (audit_rows st') = S (length (audit_rows st))
            ∧ (safe = false → (success st' + failed st' = S (success st + failed st))%nat)
            ∧ (safe = true → success st' = success st)).
Proof.
  unfold split_page, naming_decision.
  eapply post_bind; [apply post_true|intros ? _].
  eapply post_bind; [apply post_lift|intros filename Hf].
  eapply post_bind; [apply post_lift|intros raw_folder Hr].
  cbv beta in Hf, Hr. rewrite Hf, Hr.
  change (inr filename ≫= ?f) with (f filename).
  change (inr raw_folder ≫= ?f) with (f raw_folder). cbv beta zeta.
  match goal with
  | |- context [bool_decide (?a = []) || bool_decide (?b = u ".pdf")] =>
      destruct (bool_decide (a = []) || bool_decide (b = u ".pdf")) eqn:Hres
  end; simpl.
  - repeat post_step; eexists; (split; [reflexivity|]); simpl;
      rewrite ?length_app; simpl;
      (split; [done|]); (split; [lia|]); (split; [intros; try done; lia|]); done.
  - repeat post_step; eexists; (split; [reflexivity|]); simpl;
      rewrite ?length_app; simpl;
      (split; [done|]); (split; [lia|]); (split; [intros; try done; lia|]); done.
Qed.

Lemma split_pages_post safe review i doc st :
  post (pages safe review i doc st)
    (λ st', ∃ ds, imap (λ k, deciding (i + k)) doc = inr <$> ds
            ∧ decisions st' = decisions st ++ ds
            ∧ length (audit_rows st') = (length (audit_rows st) + length doc)%nat
            ∧ (safe = false →
               (success st' + failed st' = success st + failed st + length doc)%nat)
            ∧ (safe = true → success st' = success st)).
Proof.
  revert i st. induction doc as [|text doc IH]; intros i st; simpl.
  - apply post_ret. exists []. rewrite app_nil_r. repeat split; lia.
  - eapply post_bind; [apply split_page_post|].
    intros st1 (d & Hd & Hd1 & Ha1 & Hc1 & Hs1). intros w w' st2 Hrun.
    destruct (IH (S i) st1 w w' st2 Hrun) as (ds & Hds & Hd2 & Ha2 & Hc2 & Hs2).
    exists (d :: ds). split; [|split; [|split; [lia|split]]].
    + simpl. rewrite Nat.add_0_r, Hd. f_equal. etrans; [|exact Hds].
      apply imap_ext. intros k y _. simpl. f_equal. lia.
    + rewrite Hd2, Hd1, <- app_assoc. done.
    + intros Hs. specialize (Hc1 Hs). specialize (Hc2 Hs). lia.
    + intros Hs. rewrite Hs2, Hs1 by done. done.
Qed.

End Split.
End EngineFacts.

(** ** The runs of [split_pdf_full] *)

Module SplitClaims.
Import Py OsPath Pattern World Effects WorldFacts Engine EngineFacts.

Lemma makedirs_inr p w w' x :
  makedirs p w = (w', inr x) →
  trace w' = trace w ++ [MakeDirs p] ∧ fs w' !! p = Some Dir.
Proof.
  unfold makedirs, emit, stat, refused, put, raise.
  repeat (rewrite bind_run; simpl).
  destruct (fs w !! p) as [[|data]|] eqn:Hn; simpl;
    repeat (rewrite bind_run; simpl);
    try destruct (bool_decide (p ∈ denied w)); simpl;
    intros [= <- _]; simpl; try done.
  by rewrite lookup_insert_eq.
Qed.

(** The first thing a log line does is to give the line to
    [write_app_log]. *)
Lemma log_first E cb m w :
  ∃ evs, trace (log E cb m w).1 = trace w ++ AppLog m :: evs.
Proof.
  unfold log, write_app_log, try_except, emit, stat, refused, put, raise.
  repeat (rewrite bind_run; simpl).
  destruct (fs w !! APP_LOG_PATH E) as [[|data]|]; simpl;
    destruct (bool_decide (APP_LOG_PATH E ∈ denied w)); simpl;
    destruct cb; simpl; rewrite <- ?app_assoc; by eexists.
Qed.

Section Runs.
Context `{Unicode} (E : env).
Context (inp_path : path) (doc : list str) (out_dir : path)
        (file_pattern folder_pattern : str)
        (save_to_folders auto_open log_callback : bool).

Abbreviation run safe :=
  (split_pdf_full E inp_path doc out_dir file_pattern folder_pattern
     save_to_folders safe auto_open log_callback).
Abbreviation deciding :=
  (naming_decision out_dir file_pattern folder_pattern save_to_folders).

(** A simulated run only logs, whatever its outcome. *)
Lemma run_quiet : always (quiet E) (run true).
Proof.
  unfold split_pdf_full. simpl.
  repeat first [apply split_pages_quiet | logs_step].
Qed.

(** A simulated run over pages that have naming decisions returns. *)
Lemma run_returns ds :
  imap deciding doc = inr <$> ds → returns (quiet E) (run true).
Proof.
  intros Hds. unfold split_pdf_full. simpl.
  repeat first [apply (split_pages_returns _ _ _ _ _ _ _ 0 _ _ ds); exact Hds
               | quiet_step].
Qed.

(** A simulated run raises nothing but the [ValueError] of its patterns. *)
Lemma run_raises : raises_only (λ e, ∃ msg, e = ValueError msg) (run true).
Proof.
  unfold split_pdf_full. simpl.
  apply raises_only_bind; [apply (raises_only_returns (quiet E)), log_quiet|].
  intros _. case_bool_decide.
  { apply (raises_only_returns (quiet E)). repeat quiet_step. }
  apply raises_only_bind; [apply raises_only_ret|]. intros review.
  apply raises_only_bind; [apply split_pages_raises|]. intros st.
  apply (raises_only_returns (quiet E)). repeat quiet_step.
Qed.

Lemma run_post safe :
  post (run safe)
    (λ r, total r = length doc
          ∧ imap deciding doc = inr <$> r_decisions r
          ∧ length (r_audit_rows r) = length doc
          ∧ (safe = false → (r_success r + r_failed r = total r)%nat)
          ∧ (safe = true → r_success r = 0%nat ∧ audit_path r = None)).
Proof.
  unfold split_pdf_full.
  eapply post_bind; [apply post_true|intros ? _].
  case_bool_decide as Hlen.
  - eapply post_bind; [apply post_true|intros ? _]. apply post_ret.
    apply length_zero_iff_nil in Hlen. subst doc. simpl. repeat split; done.
  - eapply post_bind; [apply post_true|intros review _].
    eapply post_bind; [apply split_pages_post|].
    intros st (ds & Hds & Hd & Ha & Hc & Hs). simpl in *.
    eapply (post_bind _ _ (λ a, safe = true → a = None)).
    { destruct safe; simpl.
      - eapply post_bind; [apply post_true|intros ? _]. by apply post_ret.
      - intros ? ? ? _. done. }
    intros audit Haudit.
    eapply post_bind; [apply post_true|intros ? _].
    eapply post_bind; [apply post_true|intros ? _].
    apply post_ret. simpl. split; [done|]. split; [by rewrite Hd|]. split; [done|].
    split; [intros Hs'; specialize (Hc Hs'); lia|].
    intros Hs'. split; [by apply Hs|by apply Haudit].
Qed.

(** C1, amended: a simulated run does nothing but log, whatever its
    outcome.  Every call it makes outside the program is a log line, none
    the creation of a directory, the saving of a page or the writing of an
    audit file; every path of the storage other than the application log
    holds what it held; and the application log holds the lines that were
    logged, of which there is at least one, after what it held: the file is
    created where it was not there, and where the storage refuses the path
    or a directory is there nothing changes at all.  The run returns, with
    no audit path, when every page has a naming decision, and only then;
    otherwise it raises the [ValueError] of [int] on a number of more than
    4300 digits in a token. *)
Theorem simulated_run_only_logs (w : world) :
  (∃ evs,
     trace (run true w).1 = trace w ++ evs
     ∧ Forall is_log evs
     ∧ logged evs ≠ []
     ∧ denied (run true w).1 = denied w
     ∧ (∀ p, p ≠ APP_LOG_PATH E → fs (run true w).1 !! p = fs w !! p)
     ∧ fs (run true w).1 !! APP_LOG_PATH E = appended E w (logged evs))
  ∧ match (run true w).2 with
    | inr r => audit_path r = None ∧ imap deciding doc = inr <$> r_decisions r
    | inl e => ∃ msg, e = ValueError msg
    end
  ∧ ∀ ds, imap deciding doc = inr <$> ds →
      ∃ w' r, run true w = (w', inr r) ∧ audit_path r = None ∧ r_decisions r = ds.
Proof.
  split; [|split].
  - destruct (run_quiet w) as (Hd & Hf & _ & evs & Ht & Hevs & Ha).
    exists evs. repeat split; try done.
    assert (Hfirst : ∃ evs1 evs2, trace (run true w).1
                       = trace w ++ AppLog (SplitStarted inp_path) :: evs1 ++ evs2).
    { unfold split_pdf_full. rewrite bind_run.
      destruct (log_first E log_callback (SplitStarted inp_path) w) as [evs1 Ht1].
      destruct (log_quiet E log_callback (SplitStarted inp_path) w)
        as (w1 & [] & Hlog & _).
      rewrite Hlog in Ht1 |- *. simpl in Ht1.
      match goal with
      | |- context [trace (?m w1).1] =>
          assert (Hg : always grows m)
            by (repeat first [apply split_pages_grows | grows_step])
      end.
      match goal with
      | Hg : always grows ?m |- _ => destruct (Hg w1) as (_ & _ & evs2 & Ht2)
      end.
      exists evs1, evs2. rewrite Ht2, Ht1. by rewrite <- app_assoc. }
    destruct Hfirst as (evs1 & evs2 & Ht').
    rewrite Ht in Ht'. apply app_inv_head in Ht'. by rewrite Ht'.
  - destruct (run true w) as [w' [e|r]] eqn:Hrun; simpl.
    + by eapply run_raises.
    + destruct (run_post true _ _ _ Hrun) as (_ & Hds & _ & _ & Hs).
      split; [by apply Hs|done].
  - intros ds Hds. destruct (run_returns ds Hds w) as (w' & r & Hrun & _).
    exists w', r. split; [done|].
    destruct (run_post true _ _ _ Hrun) as (_ & Hds' & _ & _ & Hs).
    split; [by apply Hs|].
    rewrite Hds in Hds'. by apply (inj (fmap inr)) in Hds'.
Qed.

(** C3: when a live run returns, the simulated run on the same document,
    patterns and flags returns too, from whatever world, with the same
    naming decision for every page: resolved or not, the file name, the raw
    and the normalized folder value and the target directory. *)
Theorem simulated_and_live_decisions_agree (w_live w_sim w' : world) r :
  run false w_live = (w', inr r) →
  ∃ w'' r',
    run true w_sim = (w'', inr r')
    ∧ r_decisions r' = r_decisions r
    ∧ imap deciding doc = inr <$> r_decisions r.
Proof.
  intros Hlive.
  destruct (run_post false _ _ _ Hlive) as (_ & Hds & _).
  destruct (run_returns _ Hds w_sim) as (w'' & r' & Hsim & _).
  exists w'', r'. split; [done|]. split; [|done].
  destruct (run_post true _ _ _ Hsim) as (_ & Hds' & _).
  rewrite Hds in Hds'. by apply (inj (fmap inr)) in Hds'.
Qed.

(** The counts of a live run partition its pages. *)
Lemma live_run_counts_partition (w w' : world) r :
  run false w = (w', inr r) →
  (r_success r + r_failed r = total r)%nat ∧ total r = length doc.
Proof.
  intros Hrun. destruct (run_post false _ _ _ Hrun) as (? & _ & _ & Hc & _).
  split; [by apply Hc|done].
Qed.

(** A simulated run counts no success. *)
Lemma simulated_run_counts_no_success (w w' : world) r :
  run true w = (w', inr r) → r_success r = 0%nat.
Proof.
  intros Hrun. destruct (run_post true _ _ _ Hrun) as (_ & _ & _ & _ & Hs).
  by apply Hs.
Qed.

(** C4, amended: a live run over a document of at least one page creates
    the directory [!manual_review] eagerly: the call that makes it follows
    the one that makes the output root, right after the start line is logged
    and before any page is read, and the directory is there when the run
    returns, whether or not a page was unresolvable. *)
Theorem review_dir_created_at_start (w w' : world) r :
  doc ≠ [] →
  run false w = (w', inr r) →
  let review_dir := join out_dir (u "!manual_review") in
  fs w' !! review_dir = Some Dir
  ∧ ∃ before after,
      Forall is_log before
      ∧ trace w' = trace w ++ before
                    ++ [MakeDirs out_dir; MakeDirs review_dir] ++ after.
Proof.
  intros Hdoc Hrun review_dir. unfold split_pdf_full in Hrun.
  apply bind_inr in Hrun as (w1 & [] & Hlog & Hrun).
  destruct (log_quiet E log_callback (SplitStarted inp_path) w)
    as (w1' & [] & Hlog' & _ & _ & _ & before & Ht1 & Hbefore & _).
  rewrite Hlog in Hlog'. injection Hlog' as <-.
  rewrite bool_decide_eq_false_2 in Hrun
    by (intros Hlen; by apply length_zero_iff_nil in Hlen).
  apply bind_inr in Hrun as (w3 & review & Hdirs & Hrun). simpl in Hdirs.
  apply bind_inr in Hdirs as (w2 & [] & Hmk1 & Hdirs).
  apply bind_inr in Hdirs as (w2' & [] & Hmk2 & Hret).
  injection Hret as <- <-.
  apply makedirs_inr in Hmk1 as [Ht2 _].
  apply makedirs_inr in Hmk2 as [Ht3 Hdir].
  match type of Hrun with
  | ?m w2' = _ => assert (Hg : always grows m)
  end.
  { repeat first [apply split_pages_grows | grows_step]. }
  specialize (Hg w2'). rewrite Hrun in Hg. simpl in Hg.
  destruct Hg as (_ & Hdirs & after & Ht4).
  split; [by apply Hdirs|].
  exists before, after. split; [done|].
  rewrite Ht4, Ht3, Ht2, Ht1. by rewrite <- !app_assoc.
Qed.

End Runs.
End SplitClaims.

(** ** Runs in the small world *)

Module SplitRuns.
Import Py OsPath Pattern World Effects WorldFacts Engine EngineFacts SplitClaims Example.

Abbreviation run safe :=
  (split_pdf_full (H := latin) E0 (u "in.pdf") one_page (u "out") (u "[LINE 0]") []
     false safe false false w0).

(** C1, as it is stated, fails: the simulated run creates the application
    log, so the storage after it is not the storage before it. *)
Lemma simulated_run_writes_app_log : fs (run true).1 ≠ fs w0.
Proof.
  intros Heq.
  assert (Hl : fs (run true).1 !! APP_LOG_PATH E0 = None) by (rewrite Heq; reflexivity).
  vm_compute in Hl. discriminate Hl.
Qed.

(** The naming decision of the one page of [one_page]. *)
Lemma one_page_decision :
  imap (naming_decision (H := latin) (u "out") (u "[LINE 0]") [] false) one_page
  = inr <$> [ {| d_page := 1; d_resolved := true; d_filename := u "A.pdf";
                 d_raw_folder := []; d_foldername := [];
                 d_target_dir := Some (u "out") |} ].
Proof. vm_compute. reflexivity. Qed.

Lemma simulated_run_only_logs_witness :
  ∃ w' r, run true = (w', inr r) ∧ audit_path r = None.
Proof.
  destruct (proj2 (proj2 (simulated_run_only_logs (H := latin) E0 (u "in.pdf") one_page
                            (u "out") (u "[LINE 0]") [] false false false w0))
              _ one_page_decision)
    as (w' & r & Hrun & Hnone & _).
  exists w', r. split; assumption.
Defined.

(** C4, as it is stated, fails: the live run whose only page resolves
    leaves the directory [out/!manual_review] behind. *)
Lemma review_dir_created_when_all_pages_resolve :
  fs w0 !! u "out/!manual_review" = None
  ∧ match run false with
    | (w', inr r) =>
        r_failed r = 0%nat ∧ r_success r = 1%nat
        ∧ fs w' !! u "out/!manual_review" = Some Dir
    | _ => False
    end.
Proof. split; [reflexivity|]. vm_compute. repeat split. Qed.

(** C9, on a failing input: the simulated run over the document of one
    page, a page that resolves, returns total = 1 with success = 0 and
    failed = 0; the page incremented neither counter. *)
Lemma simulated_run_breaks_partition :
  match split_pdf_full (H := latin) E0 (u "in.pdf") one_page (u "out")
          (u "[LINE 0]") [] false true false false w0 with
  | (_, inr r) => total r = 1%nat ∧ r_success r = 0%nat ∧ r_failed r = 0%nat
  | _ => False
  end.
Proof. vm_compute. repeat split. Qed.

Lemma simulated_and_live_decisions_agree_witness :
  match run false with
  | (_, inr r) =>
      ∃ w'' r', run true = (w'', inr r') ∧ r_decisions r' = r_decisions r
  | _ => False
  end.
Proof.
  destruct (run false) as [w' [e|r]] eqn:Hrun; [vm_compute in Hrun; discriminate|].
  destruct (simulated_and_live_decisions_agree (H := latin) E0 (u "in.pdf") one_page
              (u "out") (u "[LINE 0]") [] false false false w0 w0 w' r Hrun)
    as (w'' & r' & Hsim & Hd & _).
  exists w'', r'. split; assumption.
Defined.

Lemma review_dir_created_at_start_witness :
  match run false with
  | (w', inr r) => fs w' !! join (u "out") (u "!manual_review") = Some Dir
  | _ => False
  end.
Proof.
  destruct (run false) as [w' [e|r]] eqn:Hrun; [vm_compute in Hrun; discriminate|].
  refine (proj1 (review_dir_created_at_start (H := latin) E0 (u "in.pdf") one_page
                   (u "out") (u "[LINE 0]") [] false false false w0 w' r _ Hrun)).
  discriminate.
Defined.

End SplitRuns.

(** ** [extract_pages] *)

Module ExtractClaims.
Import Py OsPath Pattern World Effects WorldFacts Engine EngineFacts Example.


Section Extract.
Context `{Unicode} (E : env).


End Extract.




End ExtractClaims.

(** ** The loops of the allocators end before their fuel does *)

Module LoopFacts.
Import Py OsPath Pattern World Effects WorldFacts AllocatorFacts Engine.

Lemma startswith_numbered (pre root ext : str) (j k : nat) :
  length pre = 1%nat →
  startswith pre (numbered root ext j) = startswith pre (numbered root ext k).
Proof.
  intros Hpre. unfold startswith, numbered. rewrite Hpre.
  destruct root as [|c root]; [|done]. done.
Qed.

Lemma join_numbered_inj (a : path) (root ext : str) (j k : nat) :
  join a (numbered root ext j) = join a (numbered root ext k) → j = k.
Proof.
  unfold join. rewrite (startswith_numbered [sep] root ext j k) by done.
  destruct (startswith [sep] (numbered root ext k)).
  - apply numbered_inj.
  - destruct (bool_decide (a = []) || endswith [sep] a).
    + intros Hjk%app_inv_head. by apply numbered_inj in Hjk.
    + intros Hjk%app_inv_head. injection Hjk as Hjk. by apply numbered_inj in Hjk.
Qed.

(** The path [get_unique_auditlog_path] returns does not exist. *)
Lemma unique_auditlog_path_free (date : str) (m : gmap path node) (outdir : path) :
  exists_in m (unique_auditlog_path date m outdir) = false.
Proof.
  unfold unique_auditlog_path.
  destruct (exists_in m (join outdir (u "audit_log_" ++ date ++ u ".csv"))) eqn:Hb;
    cbn [negb]; [|exact Hb].
  apply probe_free. intros j k. apply join_numbered_inj.
Qed.

(** The loop of [split_pdf_full] is the loop of the allocators. *)
Lemma final_name_loop_probe (exist : path → bool) (target_dir : path)
    (base ext : str) (fuel counter : nat) :
  join target_dir
    (final_name_loop exist target_dir base ext fuel (numbered base ext counter)
       (S counter))
  = probe exist (λ k, join target_dir (numbered base ext k)) fuel counter.
Proof.
  revert counter. induction fuel as [|fuel IH]; intros counter; simpl; [done|].
  destruct (exist (join target_dir (numbered base ext counter))); [|done].
  apply IH.
Qed.

(** The name the loop of [split_pdf_full] ends on is free in the target
    directory. *)
Lemma final_name_loop_free (m : gmap path node) (target_dir : path)
    (base ext filename : str) :
  exists_in m
    (join target_dir
       (final_name_loop (exists_in m) target_dir base ext (S (S (size m)))
          filename 1)) = false.
Proof.
  remember (S (size m)) as fuel eqn:Hfuel. cbn [final_name_loop].
  destruct (exists_in m (join target_dir filename)) eqn:Hb; [|exact Hb].
  rewrite final_name_loop_probe, Hfuel. apply probe_free.
  intros j k. apply join_numbered_inj.
Qed.

Lemma unique_final_name_free (target_dir : path) (filename : str) (w w' : world)
    (final_name : str) :
  unique_final_name target_dir filename w = (w', inr final_name) →
  w' = w ∧ exists_in (fs w) (join target_dir final_name) = false.
Proof.
  unfold unique_final_name. destruct (splitext filename) as [base ext].
  intros Hrun. inversion Hrun; subst. split; [done|]. apply final_name_loop_free.
Qed.

End LoopFacts.

(** ** More on the pattern resolver *)

Module ResolverFacts.
Import Py OsPath Pattern LatinFacts PatternFacts PatternClaims.

Section Generic.
Context `{Unicode}.

Lemma lstrip_by_head (p : char → bool) (s : str) c t :
  lstrip_by p s = c :: t → p c = false.
Proof.
  induction s as [|a s IH]; simpl; [done|].
  destruct (p a) eqn:Ha; [done|]. by intros [= <- _].
Qed.

Lemma lstrip_by_suffix (p : char → bool) (s : str) : lstrip_by p s `suffix_of` s.
Proof.
  induction s as [|a s IH]; simpl; [done|].
  destruct (p a); [by apply suffix_cons_r|done].
Qed.

(** A stripped string neither begins nor ends with white space. *)
Lemma strip_ends (s : str) (c : char) :
  head (strip s) = Some c ∨ last (strip s) = Some c → isspace c = false.
Proof.
  unfold strip, rstrip, lstrip. intros [Hc|Hc].
  - destruct (reverse (lstrip_by isspace (reverse (lstrip_by isspace s))))
      as [|c' t] eqn:Hr; [done|]. injection Hc as ->.
    assert (Hpre : (c :: t) `prefix_of` lstrip_by isspace s).
    { rewrite <- Hr. rewrite <- (reverse_involutive (lstrip_by isspace s)) at 2.
      apply suffix_prefix_reverse. apply lstrip_by_suffix. }
    destruct Hpre as [k Hk]. by apply lstrip_by_head in Hk.
  - rewrite last_reverse in Hc.
    destruct (lstrip_by isspace (reverse (lstrip_by isspace s))) as [|c' t] eqn:Hr;
      [done|]. injection Hc as ->. by apply lstrip_by_head in Hr.
Qed.

Lemma strip_fixed (s : str) :
  (∀ c, head s = Some c ∨ last s = Some c → isspace c = false) → strip s = s.
Proof.
  intros Hs. unfold strip, rstrip, lstrip.
  assert (Hl : ∀ t : str, (∀ c, head t = Some c → isspace c = false) →
                          lstrip_by isspace t = t).
  { intros [|c t] Ht; simpl; [done|]. by rewrite Ht. }
  rewrite (Hl s) by (intros c Hc; apply Hs; by left).
  rewrite (Hl (reverse s)), reverse_involutive; [done|].
  intros c Hc. apply Hs. right. by rewrite <- head_reverse.
Qed.

Lemma strip_idemp (s : str) : strip (strip s) = strip s.
Proof. apply strip_fixed, strip_ends. Qed.

(** X1: whatever a token of a pattern stands for is stripped.  For every
    line array and every match of [LINE_TOKEN_RE], the value the callback
    [replace_token] puts in the place of the match neither begins nor ends
    with white space, and stripping it again changes nothing; where the
    callback puts no value, it raised the [ValueError] of [int]. *)
Theorem token_value_is_stripped (lines : list str) (m : token_match) :
  match replace_token lines m with
  | inr v =>
      strip v = v
      ∧ ∀ c, head v = Some c ∨ last v = Some c → isspace c = false
  | inl e => ∃ msg, e = ValueError msg
  end.
Proof.
  destruct (replace_token lines m) as [e|v] eqn:Hrun;
    [by eapply replace_token_raises|].
  revert Hrun. unfold replace_token, int_group.
  destruct (int (group1 m)) as [k|]; simpl; [|done].
  destruct (_ || _).
  { intros [= <-]. split; [done|]. by intros c [?|?]. }
  destruct (getitem lines k) as [?|text]; simpl; [done|].
  destruct (truthy (group2 m)) as [s|]; simpl.
  - destruct (int s) as [a|]; simpl; [|done].
    destruct (truthy (group3 m)) as [e|]; simpl.
    + destruct (int e) as [b|]; simpl; [|done].
      intros [= <-]. split; [apply strip_idemp|apply strip_ends].
    + intros [= <-]. split; [apply strip_idemp|apply strip_ends].
  - intros [= <-]. split; [apply strip_idemp|apply strip_ends].
Qed.

(** X2: the text of a pattern before its first opening bracket is copied to
    the value unchanged, and what follows is resolved on its own. *)
Theorem literal_prefix_is_copied (lines : list str) (pre rest : str) :
  91%N ∉ pre →
  build_value_from_line_pattern lines (pre ++ rest)
  = (λ r, pre ++ r) <$> build_value_from_line_pattern lines rest.
Proof.
  unfold build_value_from_line_pattern.
  induction pre as [|c pre IH]; intros Hpre.
  { simpl. by destruct (re_sub _ rest). }
  apply not_elem_of_cons in Hpre as [Hc Hpre]. simpl.
  rewrite re_sub_cons. unfold LINE_TOKEN_RE, startswith.
  rewrite bool_decide_eq_false_2.
  - rewrite IH by done. by destruct (re_sub _ rest).
  - change (u "[LINE") with [91; 76; 73; 78; 69]%N. simpl. intros [= ? _]. done.
Qed.

End Generic.

Lemma literal_prefix_is_copied_witness :
  build_value_from_line_pattern (H := latin) [u "a"; u "b"] (u "x_" ++ u "[LINE 1]")
  = (λ r, u "x_" ++ r)
      <$> build_value_from_line_pattern (H := latin) [u "a"; u "b"] (u "[LINE 1]").
Proof.
  apply (literal_prefix_is_copied (H := latin)).
  intros Hin. repeat (apply elem_of_cons in Hin as [Hin|Hin]; [discriminate Hin|]).
  by apply elem_of_nil in Hin.
Defined.

Section WithLaws.
Context `{UnicodeAscii}.

Lemma replace_token_in_range lines n g2 g3 text k :
  digits n → int n = Some k →
  lines !! Z.to_nat k = Some text →
  replace_token lines {| group1 := n; group2 := g2; group3 := g3 |}
  = strip <$>
      match truthy g2 with
      | Some start_pos =>
          start_pos ← int_group start_pos;
          let start := Z.max (start_pos - 1) 0 in
          match truthy g3 with
          | Some end_pos => stop ← int_group end_pos; mret (slice start stop text)
          | None => mret (slice_from start text)
          end
      | None => mret text
      end.
Proof.
  intros Hn Hk Hl. unfold replace_token, int_group. cbn [group1 group2 group3].
  rewrite Hk. simpl.
  pose proof (int_digits_nonneg n k Hn Hk) as Hpos.
  apply lookup_lt_Some in Hl as Hlt.
  replace (k <? 0) with false by (symmetry; apply Z.ltb_ge; lia).
  assert (Hlt' : k < Z.of_nat (length lines))
    by (rewrite <- (Z2Nat.id k) by done; apply inj_lt; exact Hlt).
  replace (Z.of_nat (length lines) <=? k) with false
    by (symmetry; apply Z.leb_gt; exact Hlt').
  simpl. rewrite (getitem_lookup lines k text) by done. simpl.
  destruct (truthy g2) as [s|]; simpl; [|done].
  destruct (int s) as [a|]; simpl; [|done].
  destruct (truthy g3) as [e|]; simpl; [|done].
  by destruct (int e).
Qed.

(** X3: the tokens without an end position, whose numbers [int] takes (they
    have at most 4300 digits).  Where the line [n] exists, [[LINE n]] stands
    for the whole line, stripped, and [[LINE n(s)]] for the line from its
    [s]-th character on, stripped, the characters counted from 1 and a start
    of 0 taken as 1; the rest of the pattern is resolved on its own. *)
Theorem line_token_without_end lines ws n rest text k :
  spaces ws → digits n → int n = Some k →
  lines !! Z.to_nat k = Some text →
  build_value_from_line_pattern lines (token ws n None ++ rest)
  = (λ r, strip text ++ r) <$> build_value_from_line_pattern lines rest
  ∧ ∀ s a, digits s → int s = Some a →
      build_value_from_line_pattern lines (token ws n (Some (s, None)) ++ rest)
      = (λ r, strip (slice_from (Z.max (a - 1) 0) text) ++ r)
          <$> build_value_from_line_pattern lines rest.
Proof.
  intros Hw Hn Hk Hl. split.
  - rewrite build_value_token by done. simpl.
    by rewrite (replace_token_in_range _ _ _ _ text k).
  - intros s a [Hs1 Hs2] Ha. rewrite build_value_token by done. simpl.
    rewrite (replace_token_in_range _ _ _ _ text k) by done.
    destruct s; [done|]. simpl. unfold int_group. by rewrite Ha.
Qed.

End WithLaws.

Lemma line_token_without_end_witness :
  build_value_from_line_pattern (H := latin) [u "a"; u " b "]
    (token (u " ") (u "1") None ++ [])
  = (λ r, strip (H := latin) (u " b ") ++ r)
      <$> build_value_from_line_pattern (H := latin) [u "a"; u " b "] [].
Proof.
  refine (proj1 (line_token_without_end (H := latin) [u "a"; u " b "] (u " ") (u "1") []
                   (u " b ") 1 one_space (one_digit _ _) _ _));
    [by eexists|reflexivity|reflexivity].
Defined.

End ResolverFacts.

(** ** The name sanitizer and the file names *)

Module SanitizeFacts.
Import Py OsPath Pattern LatinFacts PatternFacts PatternClaims NormalizeClaims
  ResolverFacts.

Lemma replace_char (a b : char) (s : str) :
  replace [a] [b] s = (λ c, if (c =? a)%N then b else c) <$> s.
Proof.
  induction s as [|c t IH]; simp replace; [done|].
  rewrite fmap_cons, <- IH. unfold startswith. cbn [length take drop].
  destruct (N.eqb_spec c a) as [->|Hne].
  - by rewrite bool_decide_eq_true_2.
  - rewrite bool_decide_eq_false_2; [done|]. intros [= ?]. done.
Qed.

Section Generic.
Context `{Unicode}.

(** The characters [sanitize_filename] keeps. *)
Lemma sanitize_filename_kept (name : str) (c : char) :
  c ∈ sanitize_filename name →
  (isword c || isspace c || (c =? 45)%N) ∧ c ≠ 32%N.
Proof.
  unfold sanitize_filename. change (u " ") with [32%N]. change (u "_") with [95%N].
  rewrite replace_char. intros (d & -> & Hd)%list_elem_of_fmap.
  destruct (N.eqb_spec d 32) as [->|Hne].
  - split; [|done]. unfold isword. simpl. by rewrite orb_true_r.
  - split; [|done].
    assert (Hsub : d ∈ List.filter (λ c, isword c || isspace c || (c =? 45)%N) name).
    { unfold strip, rstrip, lstrip in Hd. rewrite elem_of_reverse in Hd.
      eapply elem_of_suffix in Hd; [|apply lstrip_by_suffix].
      rewrite elem_of_reverse in Hd.
      eapply elem_of_suffix in Hd; [|apply lstrip_by_suffix]. done. }
    apply list_elem_of_In, filter_In in Hsub as [_ Hk]. by rewrite Hk.
Qed.

End Generic.

Section WithLaws.
Context `{UnicodeAscii}.

(** X4: what a sanitized name is made of.  Every character of
    [sanitize_filename name] is a word character, a hyphen or white space
    other than the space U+0020; of the ASCII characters only letters,
    digits, the underscore, the hyphen and the control characters that are
    white space (U+0009 to U+000D, U+001C to U+001F) can remain, so that the
    name holds no quote, asterisk, dot, slash, colon, angle bracket, question
    mark, backslash or bar. *)
Theorem sanitize_filename_alphabet (name : str) :
  Forall (λ c, (isword c || isspace c || (c =? 45)%N) ∧ c ≠ 32%N
               ∧ (is_ascii c →
                  ascii_isalnum c || (c =? 95)%N || (c =? 45)%N
                  || ((9 <=? c) && (c <=? 13))%N || ((28 <=? c) && (c <=? 31))%N)
               ∧ c ∉ [34; 42; 46; 47; 58; 60; 62; 63; 92; 124]%N)
    (sanitize_filename name).
Proof.
  apply Forall_forall. intros c Hc.
  destruct (sanitize_filename_kept name c Hc) as [Hk Hne].
  split; [done|]. split; [done|].
  assert (Ha : is_ascii c →
               ascii_isalnum c || (c =? 95)%N || (c =? 45)%N
               || ((9 <=? c) && (c <=? 13))%N || ((28 <=? c) && (c <=? 31))%N).
  { intros Hasc. rewrite isword_ascii, isspace_ascii in Hk by done.
    revert Hk. unfold ascii_isspace, ascii_isalnum, ascii_isupper, ascii_islower.
    intros Hk. range_hyp Hk. range_goal. lia. }
  split; [done|]. intros Hin.
  repeat (apply elem_of_cons in Hin as [->|Hin]; [exact (Ha I)|]).
  by apply elem_of_nil in Hin.
Qed.

(** X5: [sanitize_filename] is idempotent: sanitizing a sanitized name
    changes nothing. *)
Theorem sanitize_filename_idempotent (name : str) :
  sanitize_filename (sanitize_filename name) = sanitize_filename name.
Proof.
  pose proof (sanitize_filename_kept name) as Hkept.
  assert (Hsp : isspace 32%N = true) by (by rewrite isspace_ascii).
  assert (Hends : ∀ c, head (sanitize_filename name) = Some c
                       ∨ last (sanitize_filename name) = Some c → isspace c = false).
  { unfold sanitize_filename. change (u " ") with [32%N]. change (u "_") with [95%N].
    rewrite replace_char. intros c Hc.
    assert (Hd : ∃ d, c = (if (d =? 32)%N then 95%N else d) ∧ isspace d = false).
    { destruct Hc as [Hc|Hc].
      - rewrite head_lookup, list_lookup_fmap in Hc.
        apply fmap_Some in Hc as (d & Hd & ->).
        exists d. split; [done|]. eapply strip_ends. left. rewrite head_lookup. exact Hd.
      - rewrite last_lookup, length_fmap, list_lookup_fmap in Hc.
        apply fmap_Some in Hc as (d & Hd & ->).
        exists d. split; [done|]. eapply strip_ends. right. rewrite last_lookup. exact Hd. }
    destruct Hd as (d & -> & Hd). destruct (N.eqb_spec d 32) as [Heq|_]; [|done].
    rewrite Heq, Hsp in Hd. discriminate Hd. }
  generalize dependent (sanitize_filename name). intros r Hkept Hends.
  unfold sanitize_filename.
  assert (Hf : List.filter (λ c, isword c || isspace c || (c =? 45)%N) r = r).
  { clear Hends. induction r as [|c r IH]; [done|]. simpl.
    destruct (Hkept c) as [Hc _]; [by left|].
    destruct (isword c || isspace c || (c =? 45)%N); [|done].
    f_equal. apply IH. intros d Hd. apply Hkept. by right. }
  rewrite Hf, (strip_fixed r) by done.
  change (u " ") with [32%N]. change (u "_") with [95%N]. rewrite replace_char.
  clear Hf Hends. induction r as [|c r IH]; [done|].
  rewrite fmap_cons, IH by (intros d Hd; apply Hkept; by right).
  destruct (Hkept c) as [_ Hc]; [by left|].
  by destruct (N.eqb_spec c 32).
Qed.

Lemma rfind_from_spec (i : Z) (c : char) (s : str) :
  0 ≤ i →
  (rfind_from i c s = -1 ∧ c ∉ s)
  ∨ ∃ k : nat, rfind_from i c s = i + Z.of_nat k ∧ s !! k = Some c ∧ c ∉ drop (S k) s.
Proof.
  revert i. induction s as [|d t IH]; intros i Hi; simpl.
  - left. split; [done|]. apply not_elem_of_nil.
  - destruct (IH (i + 1) ltac:(lia)) as [[-> Hc]|(k & -> & Hk & Hc)].
    + simpl. destruct (N.eqb_spec d c) as [->|Hne].
      * right. exists 0%nat. split; [lia|]. split; [done|]. by rewrite drop_0.
      * left. split; [done|]. by apply not_elem_of_cons.
    + replace (0 <=? i + 1 + Z.of_nat k) with true by (symmetry; apply Z.leb_le; lia).
      right. exists (S k). split; [lia|]. done.
Qed.

(** The extension [os.path.splitext] splits off holds no separator. *)
Lemma splitext_ext_no_sep (p : path) : sep ∉ (splitext p).2.
Proof.
  unfold splitext.
  destruct ((rfind sep p <? rfind extsep p) && _) eqn:Hc; [|apply not_elem_of_nil].
  apply andb_true_iff in Hc as [Hlt _]. apply Z.ltb_lt in Hlt. simpl.
  unfold slice_from. unfold rfind in *.
  destruct (rfind_from_spec 0 sep p ltac:(lia)) as [[_ Hs]|(k & Hk & _ & Hs)].
  - intros Hin. apply Hs. eapply elem_of_suffix; [exact Hin|apply suffix_drop].
  - intros Hin. apply Hs. rewrite Hk in Hlt.
    replace (Z.to_nat (rfind_from 0 extsep p))
      with (S k + (Z.to_nat (rfind_from 0 extsep p) - S k))%nat in Hin by lia.
    rewrite <- drop_drop in Hin.
    eapply elem_of_suffix; [exact Hin|apply suffix_drop].
Qed.

(** X6: the file name [build_filename_from_line_pattern] builds holds no
    path separator, whatever the lines and the pattern: the sanitized base
    has none, and the extension is cut after the last separator. *)
Theorem filename_has_no_separator (lines : list str) (pattern : str) :
  match build_filename_from_line_pattern lines pattern with
  | inr name => sep ∉ name
  | inl e => ∃ msg, e = ValueError msg
  end.
Proof.
  destruct (build_filename_from_line_pattern lines pattern) as [e|name] eqn:Hrun;
    [by eapply build_filename_raises|].
  revert Hrun. unfold build_filename_from_line_pattern.
  destruct (build_value_from_line_pattern lines pattern) as [?|raw]; simpl; [done|].
  case_bool_decide; [intros [= <-]; apply not_elem_of_nil|].
  match goal with |- context [splitext ?r] =>
    pose proof (splitext_ext_no_sep r) as Hext; destruct (splitext r) as [base ext]
  end.
  simpl in Hext. intros [= <-]. rewrite elem_of_app. intros [Hin|Hin]; [|done].
  destruct (sanitize_filename_kept base sep Hin) as [Hk _].
  rewrite isword_ascii, isspace_ascii in Hk by done. exact Hk.
Qed.

End WithLaws.

Lemma sanitize_filename_alphabet_witness :
  Forall (λ c, c ∉ [34; 42; 46; 47; 58; 60; 62; 63; 92; 124]%N)
    (sanitize_filename (H := latin) (u " n/a: 7.5 ")).
Proof.
  eapply Forall_impl; [apply (sanitize_filename_alphabet (H := latin))|].
  intros c (_ & _ & _ & Hc). exact Hc.
Defined.

Lemma sanitize_filename_idempotent_witness :
  sanitize_filename (H := latin) (sanitize_filename (H := latin) (u " n/a: 7.5 "))
  = sanitize_filename (H := latin) (u " n/a: 7.5 ").
Proof. apply (sanitize_filename_idempotent (H := latin)). Defined.

Lemma filename_has_no_separator_witness :
  match build_filename_from_line_pattern (H := latin) [u "a/b"] (u "../[LINE 0]") with
  | inr name => sep ∉ name
  | inl e => ∃ msg, e = ValueError msg
  end.
Proof. apply (filename_has_no_separator (H := latin)). Defined.

End SanitizeFacts.

(** ** The allocators always return; the application log *)

Module AllocatorRuns.
Import Py OsPath World Effects WorldFacts AllocatorFacts LoopFacts.

Lemma exists_in_false (m : gmap path node) p : exists_in m p = false ↔ m !! p = None.
Proof.
  unfold exists_in. rewrite bool_decide_eq_false, <- eq_None_not_Some. done.
Qed.

Lemma exists_in_true (m : gmap path node) p : exists_in m p = true ↔ is_Some (m !! p).
Proof. unfold exists_in. by rewrite bool_decide_eq_true. Qed.

(** The loop of the allocators, started at 1 with the fuel they give it,
    ends on the first candidate that does not exist. *)
Lemma probe_first_free (m : gmap path node) (candidate : nat → path) :
  (∀ j k, candidate j = candidate k → j = k) →
  ∃ k, (1 ≤ k)%nat
       ∧ probe (exists_in m) candidate (S (size m)) 1 = candidate k
       ∧ m !! candidate k = None
       ∧ ∀ j, (1 ≤ j < k)%nat → is_Some (m !! candidate j).
Proof.
  intros Hinj.
  destruct (probe_spec m candidate (S (size m)) 1)
    as [(k & Hk & Hlt & Hfree & Hp)|[Hall _]].
  - exists k. split; [lia|]. split; [done|]. split; [by apply exists_in_false|].
    intros j Hj. apply exists_in_true. by apply Hlt.
  - apply candidates_bounded in Hall; [lia|done].
Qed.

(** X7: [get_unique_path] always returns, in the world it was called in, a
    path at which nothing exists: the desired path, or, only when something
    exists at the desired path, the desired path with a counter of at least
    1 between its root and its extension. *)
Theorem get_unique_path_returns_free (w : world) (base_path : path) :
  ∃ p,
    get_unique_path base_path w = (w, inr p)
    ∧ fs w !! p = None
    ∧ (p = base_path
       ∨ is_Some (fs w !! base_path)
         ∧ ∃ k, (1 ≤ k)%nat
                ∧ p = (splitext base_path).1 ++ u "_" ++ str_of_nat k
                        ++ (splitext base_path).2).
Proof.
  unfold get_unique_path, unique_path.
  destruct (exists_in (fs w) base_path) eqn:Hb; cbn [negb].
  - destruct (splitext base_path) as [root ext]. cbn [fst snd].
    destruct (probe_first_free (fs w) (numbered root ext) (numbered_inj root ext))
      as (k & Hk & Hp & Hfree & _).
    rewrite Hp. exists (numbered root ext k). split; [done|]. split; [done|]. right.
    split; [by apply exists_in_true|]. by exists k.
  - exists base_path. split; [done|]. split; [by apply exists_in_false|]. by left.
Qed.

(** X8: [get_unique_auditlog_path] always returns, in the world it was
    called in, a path at which nothing exists: [audit_log_<date>.csv] in the
    output directory, or, only when that exists, [audit_log_<date>_<k>.csv]
    for the least [k] from 1 on whose path does not exist. *)
Theorem get_unique_auditlog_path_first_free (E : env) (w : world) (outdir : path) :
  ∃ p,
    get_unique_auditlog_path E outdir w = (w, inr p)
    ∧ fs w !! p = None
    ∧ (p = join outdir (u "audit_log_" ++ date_str E ++ u ".csv")
       ∨ is_Some (fs w !! join outdir (u "audit_log_" ++ date_str E ++ u ".csv"))
         ∧ ∃ k, (1 ≤ k)%nat
                ∧ p = join outdir (u "audit_log_" ++ date_str E ++ u "_"
                                     ++ str_of_nat k ++ u ".csv")
                ∧ ∀ j, (1 ≤ j < k)%nat →
                       is_Some (fs w !! join outdir
                                  (u "audit_log_" ++ date_str E ++ u "_"
                                     ++ str_of_nat j ++ u ".csv"))).
Proof.
  unfold get_unique_auditlog_path, unique_auditlog_path.
  destruct (exists_in (fs w) (join outdir (u "audit_log_" ++ date_str E ++ u ".csv")))
    eqn:Hb; cbn [negb].
  - destruct (probe_first_free (fs w)
               (λ counter, join outdir
                  (numbered (u "audit_log_" ++ date_str E) (u ".csv") counter)))
      as (k & Hk & Hp & Hfree & Hall).
    { intros j k. apply join_numbered_inj. }
    rewrite Hp. eexists. split; [reflexivity|]. split; [done|]. right.
    split; [by apply exists_in_true|]. exists k. split; [done|].
    unfold numbered in *. rewrite <- !app_assoc in *. split; [done|].
    intros j Hj. specialize (Hall j Hj). by rewrite <- !app_assoc in Hall.
  - eexists. split; [done|]. split; [by apply exists_in_false|]. by left.
Qed.

(** X9: [write_app_log] never raises.  It returns in a world that differs
    from the one before at the application log only: where the log is a file
    that may be written the line is appended, where it does not exist and
    may be created it is created with the line, and where the storage
    refuses, or the path is a directory, the failure is swallowed and the
    storage is as it was. *)
Theorem write_app_log_swallows_failures (E : env) (line : msg) (w : world) :
  ∃ w',
    write_app_log E line w = (w', inr ())
    ∧ trace w' = trace w ++ [AppLog line]
    ∧ denied w' = denied w
    ∧ (∀ p, p ≠ APP_LOG_PATH E → fs w' !! p = fs w !! p)
    ∧ fs w' !! APP_LOG_PATH E
      = match fs w !! APP_LOG_PATH E with
        | Some Dir => Some Dir
        | Some (File data) =>
            Some (File (if bool_decide (APP_LOG_PATH E ∈ denied w) then data
                        else data ++ [LogLine line]))
        | None =>
            if bool_decide (APP_LOG_PATH E ∈ denied w) then None
            else Some (File [LogLine line])
        end.
Proof.
  unfold write_app_log, try_except, emit, stat, refused, put, raise.
  repeat (rewrite bind_run; simpl).
  destruct (fs w !! APP_LOG_PATH E) as [[|data]|] eqn:Hn; simpl;
    repeat (rewrite bind_run; simpl);
    try destruct (bool_decide (APP_LOG_PATH E ∈ denied w)); simpl;
    eexists; (split; [reflexivity|]); simpl; repeat split; try done;
    try (by rewrite lookup_insert_eq);
    intros p Hp; by rewrite lookup_insert_ne.
Qed.

End AllocatorRuns.

(** ** What the operations write over *)

Module FrameFacts.
Import Py OsPath Pattern World Effects WorldFacts AllocatorFacts Engine EngineFacts
  LoopFacts AllocatorRuns Frame.

#[export] Instance keeps_preorder X : PreOrder (keeps X).
Proof.
  split.
  - intros w p n Hp _. exact Hp.
  - intros w1 w2 w3 H12 H23 p n Hp HX. apply H23; [|exact HX]. by apply H12.
Qed.

Lemma quiet_keeps E (X : path → Prop) w w' :
  X (APP_LOG_PATH E) → quiet E w w' → keeps X w w'.
Proof.
  intros HX (_ & Hf & _) p n Hp Hn. rewrite Hf; [done|]. by intros ->.
Qed.

Lemma read_keeps X {A} (f : world → A) : always (keeps X) (λ w, (w, inr (f w))).
Proof. intros w. simpl. reflexivity. Qed.

Lemma emit_keeps X e : always (keeps X) (emit e).
Proof. intros w p n Hp _. exact Hp. Qed.

Lemma popen_keeps X E p : always (keeps X) (popen E p).
Proof.
  intros w. unfold popen. rewrite bind_run. simpl.
  destruct (has_opener E); intros q n Hq _; exact Hq.
Qed.

Lemma makedirs_keeps X p : always (keeps X) (makedirs p).
Proof.
  intros w. unfold makedirs, emit, stat, refused, put, raise.
  repeat (rewrite bind_run; simpl).
  destruct (fs w !! p) as [[|data]|] eqn:Hn; simpl;
    repeat (rewrite bind_run; simpl);
    try destruct (bool_decide (p ∈ denied w)); simpl;
    intros q n Hq _; simpl; try exact Hq.
  rewrite lookup_insert_ne; [exact Hq|]. intros ->. by rewrite Hn in Hq.
Qed.

(** Writing where nothing is, or inside [X], keeps the rest. *)
Lemma write_file_keeps X p data w :
  fs w !! p = None ∨ X p → keeps X w (write_file p data w).1.
Proof.
  intros Hp. unfold write_file, stat, refused, put, raise.
  repeat (rewrite bind_run; simpl).
  destruct (fs w !! p) as [[|old]|] eqn:Hn; simpl;
    repeat (rewrite bind_run; simpl);
    try destruct (bool_decide (p ∈ denied w)); simpl;
    intros q n Hq HX; simpl; try exact Hq;
    (rewrite lookup_insert_ne; [exact Hq|]); intros ->;
    destruct Hp as [Hp|Hp]; try done; by rewrite Hn in Hq.
Qed.

Lemma save_keeps X p pages w :
  fs w !! p = None ∨ X p → keeps X w (save p pages w).1.
Proof.
  intros Hp. unfold save. rewrite bind_run. simpl.
  apply (write_file_keeps X p _ {| fs := fs w; denied := denied w;
                                   trace := trace w ++ [Save p pages] |}). exact Hp.
Qed.

Lemma to_csv_keeps X p rows w :
  fs w !! p = None ∨ X p → keeps X w (to_csv p rows w).1.
Proof.
  intros Hp. unfold to_csv. rewrite bind_run. simpl.
  apply (write_file_keeps X p _ {| fs := fs w; denied := denied w;
                                   trace := trace w ++ [ToCsv p rows] |}). exact Hp.
Qed.

Lemma keeps_bind_at X {A B} (m : M A) (f : A → M B) w :
  keeps X w (m w).1 → (∀ x, always (keeps X) (f x)) → keeps X w ((m ≫= f) w).1.
Proof.
  intros Hm Hf. rewrite bind_run. destruct (m w) as [w1 [e|x]]; [done|].
  etrans; [exact Hm|]. apply Hf.
Qed.

Lemma keeps_try_at X {A} (m h : M A) w :
  keeps X w (m w).1 → always (keeps X) h → keeps X w (try_except m h w).1.
Proof.
  intros Hm Hh. unfold try_except. destruct (m w) as [w1 [e|x]]; [|done].
  etrans; [exact Hm|]. apply Hh.
Qed.

Lemma always_bind_post (R : world → world → Prop) `{!PreOrder R} {A B}
    (m : M A) (P : A → Prop) (f : A → M B) :
  always R m → post m P → (∀ x, P x → always R (f x)) → always R (m ≫= f).
Proof.
  intros Hm HP Hf w. rewrite bind_run. specialize (Hm w). specialize (HP w).
  destruct (m w) as [w1 [e|x]]; [done|].
  etrans; [exact Hm|]. apply Hf. by eapply HP.
Qed.

(** What follows an allocator may rely on what it allocated. *)
Lemma keeps_alloc X {A B} (alloc : M A) (P : world → A → Prop) (f : A → M B) :
  (∀ w, ∃ x, alloc w = (w, inr x) ∧ P w x) →
  (∀ x w, P w x → keeps X w (f x w).1) →
  always (keeps X) (alloc ≫= f).
Proof.
  intros Halloc Hf w. rewrite bind_run.
  destruct (Halloc w) as (x & -> & HP). by apply Hf.
Qed.

Section Logs.
Context (E : env) (X : path → Prop) (HX : X (APP_LOG_PATH E)).

Lemma write_app_log_keeps m : always (keeps X) (write_app_log E m).
Proof.
  intros w. destruct (write_app_log_quiet E m w) as (w' & x & -> & Hq).
  by eapply quiet_keeps.
Qed.

Lemma log_keeps cb m : always (keeps X) (log E cb m).
Proof.
  intros w. destruct (log_quiet E cb m w) as (w' & x & -> & Hq).
  by eapply quiet_keeps.
Qed.

End Logs.

Ltac keeps_step :=
  match goal with
  | |- always _ (mret _) => apply always_ret; apply _
  | |- always _ (raise _) => apply always_raise; apply _
  | |- always _ (log _ _ _) => apply log_keeps
  | |- always _ (write_app_log _ _) => apply write_app_log_keeps
  | |- always _ (makedirs _) => apply makedirs_keeps
  | |- always _ (lift _) => apply always_lift; apply _
  | |- always _ (popen _ _) => apply popen_keeps
  | |- always _ (emit _) => apply emit_keeps
  | |- always _ (try_except _ _) => apply always_try; [apply _| |]
  | |- always _ (mapM _ _) => apply always_mapM; [apply _|intros ?]
  | |- always _ (_ ≫= _) => apply always_bind; [apply _| |intros ?]
  | |- always _ (if ?b then _ else _) => destruct b
  | |- always _ (match ?x with _ => _ end) => destruct x
  end.

Section Runs.
Context `{Unicode} (E : env).

Lemma unique_final_name_alloc target_dir filename w :
  ∃ final_name,
    unique_final_name target_dir filename w = (w, inr final_name)
    ∧ fs w !! join target_dir final_name = None.
Proof.
  destruct (unique_final_name target_dir filename w) as [w' [e|final_name]] eqn:Hrun.
  - unfold unique_final_name in Hrun. by destruct (splitext filename).
  - apply unique_final_name_free in Hrun as [-> Hfree].
    exists final_name. split; [done|]. by apply exists_in_false.
Qed.

Lemma extract_to_keeps X doc out_dir out_name a b :
  always (keeps X) (extract_to doc out_dir out_name a b).
Proof.
  unfold extract_to.
  apply (keeps_alloc X _ (λ w p, fs w !! p = None)).
  - intros w. eexists. split; [reflexivity|]. apply exists_in_false, unique_path_free.
  - intros p w Hfree. apply keeps_bind_at; [apply save_keeps; by left|].
    intros _. apply always_ret. apply _.
Qed.

(** X10: [extract_pages] overwrites nothing.  Whatever its arguments and
    its outcome, every file and directory that was in the storage before
    the call, the application log apart, is there after it as it was: the
    pages go to paths at which nothing existed. *)
Theorem extract_pages_overwrites_nothing
    inp_path doc out_dir single_page range_from range_to
    (per_page auto_open log_callback : bool) (w : world) :
  keeps (λ p, p = APP_LOG_PATH E) w
    (extract_pages E inp_path doc out_dir single_page range_from range_to
       per_page auto_open log_callback w).1.
Proof.
  revert w.
  change (always (keeps (λ p, p = APP_LOG_PATH E))
            (extract_pages E inp_path doc out_dir single_page range_from range_to
               per_page auto_open log_callback)).
  unfold extract_pages.
  repeat first [apply extract_to_keeps | keeps_step]; done.
Qed.

Lemma split_page_keeps out_dir file_pattern folder_pattern
    (save_to_folders safe log_callback : bool) review i text st :
  review = None ∨ review = Some (join out_dir (u "!manual_review")) →
  always (keeps (split_writes E out_dir))
    (split_page E out_dir file_pattern folder_pattern save_to_folders safe
       log_callback review i text st).
Proof.
  intros Hreview. assert (HX : split_writes E out_dir (APP_LOG_PATH E)) by (by left).
  unfold split_page.
  apply always_bind; [apply _|repeat keeps_step; done|intros _].
  apply always_bind; [apply _|keeps_step|intros filename].
  apply always_bind; [apply _|keeps_step|intros raw_folder]. cbv zeta.
  match goal with |- always _ (if ?b then _ else _) => destruct b end.
  - apply always_bind; [apply _|by apply log_keeps|intros _].
    apply always_bind; [apply _|by apply write_app_log_keeps|intros _].
    destruct safe; [apply always_ret; apply _|].
    destruct Hreview as [->| ->]; [apply always_raise; apply _|].
    intros w. apply keeps_bind_at.
    + apply save_keeps. right. right. by exists (S i).
    + intros _. apply always_ret. apply _.
  - destruct safe.
    + apply always_bind; [apply _|by apply log_keeps|intros _]. apply always_ret. apply _.
    + apply always_bind; [apply _|apply makedirs_keeps|intros _].
      match goal with
      | |- always _ (unique_final_name ?t _ ≫= _) =>
          apply (keeps_alloc _ _ (λ w final_name, fs w !! join t final_name = None))
      end.
      * intros w. apply unique_final_name_alloc.
      * intros final_name w Hfree. apply keeps_bind_at; [apply save_keeps; by left|].
        intros _. apply always_bind; [apply _|by apply log_keeps|intros _].
        apply always_ret. apply _.
Qed.

Lemma split_pages_keeps out_dir file_pattern folder_pattern
    (save_to_folders safe log_callback : bool) review i doc st :
  review = None ∨ review = Some (join out_dir (u "!manual_review")) →
  always (keeps (split_writes E out_dir))
    (split_pages E out_dir file_pattern folder_pattern save_to_folders safe
       log_callback review i doc st).
Proof.
  intros Hreview. revert i st. induction doc as [|text doc IH]; intros i st; simpl.
  - apply always_ret. apply _.
  - apply always_bind; [apply _|by apply split_page_keeps|]. intros st'. apply IH.
Qed.

(** X11: [split_pdf_full] writes over nothing but the application log and
    the review artifacts.  Whatever its arguments, its mode and its outcome,
    every file and directory that was in the storage before the call is
    there after it as it was, unless its path is that of the application log
    or of a file [Unmatched_Page_<n>.pdf] of the directory [!manual_review]:
    resolved pages and the audit log go to paths at which nothing existed,
    while a review artifact is saved over what is at its path. *)
Theorem split_pdf_full_overwrites_review_only
    inp_path doc out_dir file_pattern folder_pattern
    (save_to_folders safe_mode auto_open log_callback : bool) (w : world) :
  keeps (split_writes E out_dir) w
    (split_pdf_full E inp_path doc out_dir file_pattern folder_pattern
       save_to_folders safe_mode auto_open log_callback w).1.
Proof.
  revert w.
  change (always (keeps (split_writes E out_dir))
            (split_pdf_full E inp_path doc out_dir file_pattern folder_pattern
               save_to_folders safe_mode auto_open log_callback)).
  assert (HX : split_writes E out_dir (APP_LOG_PATH E)) by (by left).
  unfold split_pdf_full.
  apply always_bind; [apply _|by apply log_keeps|intros _].
  case_bool_decide.
  { apply always_bind; [apply _|by apply log_keeps|intros _]. apply always_ret. apply _. }
  apply (always_bind_post _ _
           (λ review, review = None
                      ∨ review = Some (join out_dir (u "!manual_review")))).
  { destruct safe_mode; simpl; repeat keeps_step. }
  { destruct safe_mode; simpl.
    - intros w w' review [= _ <-]. by left.
    - intros w w' review
        (w1 & [] & _ & (w2 & [] & _ & [= _ <-])%bind_inr)%bind_inr. by right. }
  intros review Hreview.
  apply always_bind; [apply _|by apply split_pages_keeps|intros st].
  apply always_bind; [apply _| |intros audit].
  { destruct safe_mode; simpl.
    - apply always_bind; [apply _|by apply log_keeps|intros _]. apply always_ret. apply _.
    - apply (keeps_alloc _ _ (λ w p, fs w !! p = None)).
      + intros w. eexists. split; [reflexivity|].
        apply exists_in_false, unique_auditlog_path_free.
      + intros p w Hfree. apply keeps_try_at.
        * apply keeps_bind_at; [apply to_csv_keeps; by left|]. intros _.
          apply always_bind; [apply _|by apply log_keeps|intros _].
          apply always_ret. apply _.
        * apply always_bind; [apply _|by apply log_keeps|intros _].
          apply always_ret. apply _. }
  apply always_bind; [apply _|by apply log_keeps|intros _].
  apply always_bind; [apply _| |intros _]; [|apply always_ret; apply _].
  destruct (negb safe_mode && auto_open); repeat keeps_step; done.
Qed.

End Runs.
End FrameFacts.

(** ** What a run of [split_pdf_full] records and saves *)

Module RunFacts.
Import Py OsPath Pattern World Effects WorldFacts AllocatorFacts Engine EngineFacts
  LoopFacts AllocatorRuns Frame.

Lemma saved_app a b : saved (a ++ b) = saved a ++ saved b.
Proof. apply omap_app. Qed.

Lemma saved_logs evs : Forall is_log evs → saved evs = [].
Proof.
  induction 1 as [|e evs He _ IH]; [done|]. by destruct e.
Qed.

#[export] Instance saves_preorder : PreOrder (saves []).
Proof.
  unfold saves. split.
  - intros w. by rewrite app_nil_r.
  - intros w1 w2 w3 H12 H23. rewrite app_nil_r in *. congruence.
Qed.

Lemma saves_trans a b w1 w2 w3 : saves a w1 w2 → saves b w2 w3 → saves (a ++ b) w1 w3.
Proof. unfold saves. intros H12 H23. by rewrite H23, H12, app_assoc. Qed.

Lemma saves_before a w1 w2 w3 : saves [] w1 w2 → saves a w2 w3 → saves a w1 w3.
Proof. apply (saves_trans [] a). Qed.

Lemma saves_after a w1 w2 w3 : saves a w1 w2 → saves [] w2 w3 → saves a w1 w3.
Proof. intros H12 H23. rewrite <- (app_nil_r a). by eapply saves_trans. Qed.

Lemma quiet_saves E w w' : quiet E w w' → saves [] w w'.
Proof.
  intros (_ & _ & _ & evs & Ht & Hevs & _). unfold saves.
  by rewrite Ht, saved_app, (saved_logs evs).
Qed.

Lemma returns_inv {A} (R : world → world → Prop) (m : M A) w w' x :
  returns R m → m w = (w', inr x) → R w w'.
Proof. intros Hm Hrun. destruct (Hm w) as (w1 & y & Heq & HR). congruence. Qed.

Lemma always_inv {A} (R : world → world → Prop) (m : M A) w w' x :
  always R m → m w = (w', x) → R w w'.
Proof. intros Hm Hrun. specialize (Hm w). by rewrite Hrun in Hm. Qed.

Lemma write_file_trace p data w : trace (write_file p data w).1 = trace w.
Proof.
  unfold write_file, stat, refused, put, raise.
  repeat (rewrite bind_run; simpl).
  destruct (fs w !! p) as [[|old]|]; simpl; repeat (rewrite bind_run; simpl);
    try destruct (bool_decide (p ∈ denied w)); done.
Qed.

(** A save that returns saved its document. *)
Lemma save_saves p pages w : saves [(p, pages)] w (save p pages w).1.
Proof.
  unfold save, saves. rewrite bind_run. simpl.
  rewrite write_file_trace. simpl. by rewrite saved_app.
Qed.

Lemma to_csv_saves p rows : always (saves []) (to_csv p rows).
Proof.
  intros w. unfold to_csv, saves. rewrite bind_run. simpl.
  rewrite write_file_trace. simpl. by rewrite saved_app.
Qed.

Lemma makedirs_saves p : always (saves []) (makedirs p).
Proof.
  intros w. unfold makedirs, emit, stat, refused, put, raise, saves.
  repeat (rewrite bind_run; simpl).
  destruct (fs w !! p) as [[|old]|]; simpl; repeat (rewrite bind_run; simpl);
    try destruct (bool_decide (p ∈ denied w)); simpl; by rewrite saved_app.
Qed.

Lemma popen_saves E p : always (saves []) (popen E p).
Proof.
  intros w. unfold popen, saves. rewrite bind_run. simpl.
  destruct (has_opener E); simpl; by rewrite saved_app.
Qed.

Lemma log_saves E cb m : always (saves []) (log E cb m).
Proof.
  intros w. destruct (log_quiet E cb m w) as (w' & x & -> & Hq). by eapply quiet_saves.
Qed.

(** The name the loop of [split_pdf_full] ends on: the name it began with,
    or that name with a counter. *)
Lemma final_name_loop_shape (exist : path → bool) target_dir base ext fuel
    final_name counter :
  let r := final_name_loop exist target_dir base ext fuel final_name counter in
  r = final_name ∨ ∃ k, (counter ≤ k)%nat ∧ r = numbered base ext k.
Proof.
  revert final_name counter. induction fuel as [|fuel IH]; intros final_name counter;
    simpl; [by left|].
  destruct (exist (join target_dir final_name)); [|by left].
  right. destruct (IH (numbered base ext counter) (S counter)) as [->|(k & Hk & ->)].
  - by exists counter.
  - exists k. split; [lia|done].
Qed.

Lemma length_filter_cons {A} (P : A → Prop) `{!∀ x, Decision (P x)} (a : A) (l : list A) :
  length (filter P (a :: l)) = (length (filter P [a]) + length (filter P l))%nat.
Proof. change (a :: l) with ([a] ++ l). by rewrite filter_app, length_app. Qed.

Section Split.
Context `{Unicode} (E : env).
Context (out_dir : path) (file_pattern folder_pattern : str)
        (save_to_folders log_callback : bool).

Abbreviation page safe review :=
  (split_page E out_dir file_pattern folder_pattern save_to_folders safe
     log_callback review).
Abbreviation pages safe review :=
  (split_pages E out_dir file_pattern folder_pattern save_to_folders safe
     log_callback review).
Abbreviation deciding :=
  (naming_decision out_dir file_pattern folder_pattern save_to_folders).

Abbreviation unresolved := (λ d : decision, negb (d_resolved d)).

Lemma unique_final_name_shape target_dir filename w w' final_name :
  unique_final_name target_dir filename w = (w', inr final_name) →
  w' = w
  ∧ (final_name = filename
     ∨ ∃ k, (1 ≤ k)%nat
            ∧ final_name = numbered (splitext filename).1 (splitext filename).2 k).
Proof.
  unfold unique_final_name. destruct (splitext filename) as [base ext]. cbn [fst snd].
  intros Hrun. inversion Hrun; subst. split; [done|].
  apply (final_name_loop_shape (exists_in (fs w')) target_dir base ext
           (S (S (size (fs w')))) filename 1).
Qed.

(** What a page that returns did. *)
Lemma split_page_spec safe review i text st w w' st' :
  (safe = false → review = Some (join out_dir (u "!manual_review"))) →
  page safe review i text st w = (w', inr st') →
  ∃ d row,
    deciding i text = inr d
    ∧ d_page d = S i
    ∧ audit_rows st' = audit_rows st ++ [row]
    ∧ decisions st' = decisions st ++ [d]
    ∧ failed st' = (failed st + length (filter unresolved [d]))%nat
    ∧ success st'
      = (success st + (if safe then 0 else length (filter d_resolved [d])))%nat
    ∧ documents safe d row
    ∧ saves (if safe then [] else [(page_path out_dir d row, [text])]) w w'.
Proof.
  intros Hreview Hrun. unfold split_page in Hrun.
  apply bind_inr in Hrun as (w1 & [] & Hpre & Hrun).
  assert (H1 : saves [] w w1).
  { eapply quiet_saves, returns_inv; [|exact Hpre]. repeat quiet_step. }
  apply bind_inr in Hrun as (w1' & filename & Hf & Hrun).
  apply lift_inr in Hf as [-> Hf].
  apply bind_inr in Hrun as (w1' & raw_folder & Hr & Hrun).
  apply lift_inr in Hr as [-> Hr].
  cbv zeta in Hrun. unfold naming_decision. rewrite Hf, Hr.
  change (inr filename ≫= ?f) with (f filename).
  change (inr raw_folder ≫= ?f) with (f raw_folder). cbv beta zeta.
  unfold documents, page_path.
  match type of Hrun with
  | context [bool_decide (?a = []) || bool_decide (?b = u ".pdf")] =>
      destruct (bool_decide (a = []) || bool_decide (b = u ".pdf")) eqn:Hres
  end.
  - apply bind_inr in Hrun as (w2 & [] & Hlog1 & Hrun).
    apply bind_inr in Hrun as (w3 & [] & Hlog2 & Hrun).
    assert (H2 : saves [] w1 w2)
      by (eapply quiet_saves, returns_inv; [apply log_quiet|exact Hlog1]).
    assert (H3 : saves [] w2 w3)
      by (eapply quiet_saves, returns_inv; [apply write_app_log_quiet|exact Hlog2]).
    destruct safe.
    + injection Hrun as <- <-. eexists _, _. split; [reflexivity|].
      cbn [negb d_resolved d_page d_filename d_raw_folder d_foldername d_target_dir
           audit_rows decisions failed success].
      split; [reflexivity|].
      split; [reflexivity|]. split; [reflexivity|]. split; [simpl; lia|].
      split; [simpl; lia|]. split; [by repeat split|].
      by repeat (etrans; [eassumption|]).
    + rewrite Hreview in Hrun by done.
      apply bind_inr in Hrun as (w4 & [] & Hsave & Hrun).
      injection Hrun as <- <-. eexists _, _. split; [reflexivity|].
      cbn [negb d_resolved d_page d_filename d_raw_folder d_foldername d_target_dir
           audit_rows decisions failed success].
      split; [reflexivity|].
      split; [reflexivity|]. split; [reflexivity|]. split; [simpl; lia|].
      split; [simpl; lia|]. split; [by repeat split|].
      cbn [Page Filename].
      eapply saves_before; [by repeat (etrans; [eassumption|])|].
      pose proof (save_saves (join (join out_dir (u "!manual_review"))
                                (u "Unmatched_Page_" ++ str_of_nat (S i) ++ u ".pdf"))
                    [text] w3) as Hs.
      rewrite Hsave in Hs. exact Hs.
  - destruct safe.
    + apply bind_inr in Hrun as (w2 & [] & Hlog1 & Hrun).
      assert (H2 : saves [] w1 w2)
        by (eapply quiet_saves, returns_inv; [apply log_quiet|exact Hlog1]).
      injection Hrun as <- <-. eexists _, _. split; [reflexivity|].
      cbn [negb d_resolved d_page d_filename d_raw_folder d_foldername d_target_dir
           audit_rows decisions failed success].
      split; [reflexivity|].
      split; [reflexivity|]. split; [reflexivity|]. split; [simpl; lia|].
      split; [simpl; lia|]. split; [repeat split; by left|].
      by repeat (etrans; [eassumption|]).
    + apply bind_inr in Hrun as (w2 & [] & Hmk & Hrun).
      apply bind_inr in Hrun as (w2' & final_name & Hname & Hrun).
      apply unique_final_name_shape in Hname as [-> Hname].
      apply bind_inr in Hrun as (w3 & [] & Hsave & Hrun).
      apply bind_inr in Hrun as (w4 & [] & Hlog1 & Hrun).
      assert (H2 : saves [] w1 w2) by (eapply always_inv; [apply makedirs_saves|exact Hmk]).
      assert (H4 : saves [] w3 w4)
        by (eapply quiet_saves, returns_inv; [apply log_quiet|exact Hlog1]).
      injection Hrun as <- <-. eexists _, _. split; [reflexivity|].
      cbn [negb d_resolved d_page d_filename d_raw_folder d_foldername d_target_dir
           audit_rows decisions failed success].
      split; [reflexivity|].
      split; [reflexivity|]. split; [reflexivity|]. split; [simpl; lia|].
      split; [simpl; lia|]. split.
      { repeat split. cbn [Filename]. destruct Hname as [->|Hname]; [by left|].
        right. split; [done|]. exact Hname. }
      cbn [Filename]. eapply saves_after; [|exact H4].
      eapply saves_before; [by repeat (etrans; [eassumption|])|].
      match type of Hsave with
      | save ?p ?pages w2 = _ => pose proof (save_saves p pages w2) as Hs
      end.
      rewrite Hsave in Hs. exact Hs.
Qed.

Abbreviation saved_pages ds rows doc :=
  (zip_with (λ (text : str) (dr : decision * audit_row),
               (page_path out_dir dr.1 dr.2, [text])) doc (zip ds rows)).

(** What the loop over the pages did, when it returns. *)
Lemma split_pages_spec safe review i doc st w w' st' :
  (safe = false → review = Some (join out_dir (u "!manual_review"))) →
  pages safe review i doc st w = (w', inr st') →
  ∃ ds rows,
    imap (λ k, deciding (i + k)) doc = inr <$> ds
    ∧ d_page <$> ds = seq (S i) (length doc)
    ∧ audit_rows st' = audit_rows st ++ rows
    ∧ decisions st' = decisions st ++ ds
    ∧ failed st' = (failed st + length (filter unresolved ds))%nat
    ∧ success st' = (success st + (if safe then 0 else length (filter d_resolved ds)))%nat
    ∧ Forall2 (documents safe) ds rows
    ∧ saves (if safe then [] else saved_pages ds rows doc) w w'.
Proof.
  intros Hreview. revert i st w. induction doc as [|text doc IH]; intros i st w Hrun.
  - injection Hrun as <- <-. exists [], []. simpl. rewrite !app_nil_r.
    repeat split; try done; try (destruct safe; simpl; lia).
    destruct safe; reflexivity.
  - simpl in Hrun. apply bind_inr in Hrun as (w1 & st1 & Hpage & Hrun).
    apply (split_page_spec _ _ _ _ _ _ _ _ Hreview) in Hpage
      as (d & row & Hd & Hp1 & Ha1 & Hd1 & Hf1 & Hs1 & Hrow & Hsaves1).
    apply IH in Hrun as (ds & rows & Hds & Hp2 & Ha2 & Hd2 & Hf2 & Hs2 & Hrows & Hsaves2).
    exists (d :: ds), (row :: rows).
    split.
    { simpl. rewrite Nat.add_0_r, Hd. f_equal. etrans; [|exact Hds].
      apply imap_ext. intros k y _. simpl. f_equal. lia. }
    split; [by rewrite fmap_cons, Hp1, Hp2|].
    split; [by rewrite Ha2, Ha1, <- app_assoc|].
    split; [by rewrite Hd2, Hd1, <- app_assoc|].
    split.
    { rewrite Hf2, Hf1, (length_filter_cons _ d ds). lia. }
    split.
    { rewrite Hs2, Hs1. destruct safe; [lia|].
      rewrite (length_filter_cons _ d ds). lia. }
    split; [by constructor|].
    destruct safe.
    + by etrans.
    + apply (saves_trans [_] _ _ _ _ Hsaves1 Hsaves2).
Qed.

End Split.

Ltac saves_step :=
  match goal with
  | |- always _ (mret _) => apply always_ret; apply _
  | |- always _ (raise _) => apply always_raise; apply _
  | |- always _ (log _ _ _) => apply log_saves
  | |- always _ (makedirs _) => apply makedirs_saves
  | |- always _ (to_csv _ _) => apply to_csv_saves
  | |- always _ (lift _) => apply always_lift; apply _
  | |- always _ (popen _ _) => apply popen_saves
  | |- always _ (get_unique_auditlog_path _ _) => intros ?; reflexivity
  | |- always _ (try_except _ _) => apply always_try; [apply _| |]
  | |- always _ (_ ≫= _) => apply always_bind; [apply _| |intros ?]
  | |- always _ (if ?b then _ else _) => destruct b
  | |- always _ (match ?x with _ => _ end) => destruct x
  end.

Section Runs.
Context `{Unicode} (E : env).
Context (inp_path : path) (doc : list str) (out_dir : path)
        (file_pattern folder_pattern : str)
        (save_to_folders auto_open log_callback : bool).

Abbreviation run safe :=
  (split_pdf_full E inp_path doc out_dir file_pattern folder_pattern
     save_to_folders safe auto_open log_callback).
Abbreviation decisions_of :=
  (imap (naming_decision out_dir file_pattern folder_pattern save_to_folders) doc).

(** What a run that returns did. *)
Lemma run_spec safe w w' r :
  run safe w = (w', inr r) →
  ∃ ds,
    decisions_of = inr <$> ds
    ∧ d_page <$> ds = seq 1 (length doc)
    ∧ total r = length doc
    ∧ r_failed r = length (filter (λ d, negb (d_resolved d)) ds)
    ∧ r_success r = (if safe then 0%nat else length (filter d_resolved ds))
    ∧ Forall2 (documents safe) ds (r_audit_rows r)
    ∧ saves (if safe then []
             else zip_with (λ (text : str) (dr : decision * audit_row),
                              (page_path out_dir dr.1 dr.2, [text]))
                    doc (zip ds (r_audit_rows r))) w w'.
Proof.
  intros Hrun. unfold split_pdf_full in Hrun.
  apply bind_inr in Hrun as (w1 & [] & Hlog & Hrun).
  assert (H1 : saves [] w w1) by (eapply always_inv; [apply log_saves|exact Hlog]).
  case_bool_decide as Hlen.
  { apply bind_inr in Hrun as (w2 & [] & Hlog2 & Hrun).
    assert (H2 : saves [] w1 w2) by (eapply always_inv; [apply log_saves|exact Hlog2]).
    injection Hrun as <- <-. apply length_zero_iff_nil in Hlen. rewrite Hlen.
    exists []. simpl.
    repeat split; try done; [by destruct safe|].
    destruct safe; by etrans. }
  apply bind_inr in Hrun as (w2 & review & Hreview & Hrun).
  assert (H2 : saves [] w1 w2).
  { eapply always_inv; [|exact Hreview]. repeat saves_step. }
  assert (Hrev : safe = false → review = Some (join out_dir (u "!manual_review"))).
  { intros ->. simpl in Hreview.
    apply bind_inr in Hreview as (? & [] & _ & Hreview).
    apply bind_inr in Hreview as (? & [] & _ & Hreview). by injection Hreview as _ <-. }
  apply bind_inr in Hrun as (w3 & st & Hpages & Hrun).
  destruct (split_pages_spec _ _ _ _ _ _ _ _ _ _ _ _ _ _ Hrev Hpages)
    as (ds & rows & Hds & Hp & Ha & Hd & Hf & Hs & Hrows & Hsaves).
  simpl in Ha, Hd, Hf, Hs, Hrows, Hsaves. subst rows.
  apply bind_inr in Hrun as (w4 & audit & Haudit & Hrun).
  assert (H4 : saves [] w3 w4).
  { eapply always_inv; [|exact Haudit]. repeat saves_step. }
  apply bind_inr in Hrun as (w5 & [] & Hlog5 & Hrun).
  assert (H5 : saves [] w4 w5) by (eapply always_inv; [apply log_saves|exact Hlog5]).
  apply bind_inr in Hrun as (w6 & [] & Hopen & Hrun).
  assert (H6 : saves [] w5 w6).
  { eapply always_inv; [|exact Hopen]. repeat saves_step. }
  injection Hrun as <- <-. cbn [total r_failed r_success r_audit_rows].
  exists ds.
  split; [exact Hds|]. split; [exact Hp|].
  split; [done|]. split; [done|]. split; [done|]. split; [done|].
  destruct safe.
  - by repeat (etrans; [eassumption|]).
  - apply (saves_after _ w w3 w6); [|by repeat (etrans; [eassumption|])].
    apply (saves_before _ w w2 w3); [by etrans|exact Hsaves].
Qed.

(** X12: the audit rows document the pages.  When a run returns, in either
    mode, every page has a naming decision and the run has one audit row for
    every page, in the order of the pages and numbered from 1; the row of a
    page records the folder values of its naming decision, a status that
    tells whether the page resolved and whether the run was simulated, and
    the file name: none for an unresolved page, the decided name for a
    resolved one, or, in a live run where that name was taken, the decided
    name with a counter. *)
Theorem audit_rows_document_pages (safe_mode : bool) (w w' : world) r :
  split_pdf_full E inp_path doc out_dir file_pattern folder_pattern
    save_to_folders safe_mode auto_open log_callback w = (w', inr r) →
  ∃ ds,
    imap (naming_decision out_dir file_pattern folder_pattern save_to_folders) doc
    = inr <$> ds
    ∧ Forall2 (documents safe_mode) ds (r_audit_rows r)
    ∧ Page <$> r_audit_rows r = seq 1 (length doc).
Proof.
  intros Hrun. destruct (run_spec _ _ _ _ Hrun) as (ds & Hds & Hp & _ & _ & _ & Hrows & _).
  exists ds. split; [done|]. split; [done|].
  rewrite <- Hp. clear Hp Hds.
  induction Hrows as [|d row ds' rows Hd _ IH]; [done|].
  rewrite !fmap_cons, IH. f_equal. by destruct Hd as [-> _].
Qed.

(** X13: the counts of a run that returns.  In either mode every page has a
    naming decision, [total] is the number of pages and [failed] the number
    of pages whose naming decision is unresolved; [success] is the number of
    resolved pages in a live run and 0 in a simulated one. *)
Theorem counts_follow_decisions (safe_mode : bool) (w w' : world) r :
  split_pdf_full E inp_path doc out_dir file_pattern folder_pattern
    save_to_folders safe_mode auto_open log_callback w = (w', inr r) →
  ∃ ds,
    imap (naming_decision out_dir file_pattern folder_pattern save_to_folders) doc
    = inr <$> ds
    ∧ total r = length doc
    ∧ r_failed r = length (filter (λ d, negb (d_resolved d)) ds)
    ∧ r_success r
      = (if safe_mode then 0%nat else length (filter d_resolved ds)).
Proof.
  intros Hrun. destruct (run_spec _ _ _ _ Hrun) as (ds & Hds & _ & Ht & Hf & Hs & _).
  by exists ds.
Qed.

(** X14: a live run that returns saved every page once.  Every page has a
    naming decision, and the documents the run saved are, in the order of
    the pages, one document of one page for each page of the input, holding
    the text of that page: a resolved page under the file name of its audit
    row in its target directory, an unresolved one as
    [Unmatched_Page_<n>.pdf] in [!manual_review]; nothing else was saved. *)
Theorem live_run_saves_every_page (w w' : world) r :
  split_pdf_full E inp_path doc out_dir file_pattern folder_pattern
    save_to_folders false auto_open log_callback w = (w', inr r) →
  ∃ ds,
    imap (naming_decision out_dir file_pattern folder_pattern save_to_folders) doc
    = inr <$> ds
    ∧ length (r_audit_rows r) = length doc
    ∧ saves
        (zip_with (λ (text : str) (dr : decision * audit_row),
                     (page_path out_dir dr.1 dr.2, [text]))
           doc (zip ds (r_audit_rows r)))
        w w'.
Proof.
  intros Hrun.
  destruct (run_spec _ _ _ _ Hrun) as (ds & Hds & _ & _ & _ & _ & Hrows & Hsaves).
  exists ds. split; [done|]. split; [|done].
  apply Forall2_length in Hrows. rewrite <- Hrows.
  apply (f_equal length) in Hds. by rewrite length_imap, length_fmap in Hds.
Qed.

End Runs.
End RunFacts.

(** ** Runs in the small world, again *)

Module RunWitnesses.
Import Py OsPath Pattern World Effects Engine Frame RunFacts Example.

Abbreviation live :=
  (split_pdf_full (H := latin) E0 (u "in.pdf") one_page (u "out") (u "[LINE 0]") []
     false false false false w0).

Lemma audit_rows_document_pages_witness :
  match live with
  | (_, inr r) => Page <$> r_audit_rows r = [1%nat]
  | _ => False
  end.
Proof.
  destruct live as [w' [e|r]] eqn:Hrun; [vm_compute in Hrun; discriminate|].
  destruct (audit_rows_document_pages (H := latin) E0 (u "in.pdf") one_page
              (u "out") (u "[LINE 0]") [] false false false false w0 w' r Hrun)
    as (ds & _ & _ & Hpages).
  exact Hpages.
Defined.

Lemma counts_follow_decisions_witness :
  match live with
  | (_, inr r) => total r = 1%nat
  | _ => False
  end.
Proof.
  destruct live as [w' [e|r]] eqn:Hrun; [vm_compute in Hrun; discriminate|].
  destruct (counts_follow_decisions (H := latin) E0 (u "in.pdf") one_page
              (u "out") (u "[LINE 0]") [] false false false false w0 w' r Hrun)
    as (ds & _ & Htotal & _).
  exact Htotal.
Defined.

Lemma live_run_saves_every_page_witness :
  match live with
  | (_, inr r) => length (r_audit_rows r) = 1%nat
  | _ => False
  end.
Proof.
  destruct live as [w' [e|r]] eqn:Hrun; [vm_compute in Hrun; discriminate|].
  destruct (live_run_saves_every_page (H := latin) E0 (u "in.pdf") one_page
              (u "out") (u "[LINE 0]") [] false false false w0 w' r Hrun)
    as (ds & _ & Hlen & _).
  exact Hlen.
Defined.

End RunWitnesses.

(** ** What [extract_pages] saves *)

Module ExtractFacts.
Import Py OsPath Pattern World Effects WorldFacts AllocatorFacts Engine EngineFacts
  LoopFacts AllocatorRuns Frame RunFacts.

Lemma makedirs_dir p w :
  fs w !! p = Some Dir →
  makedirs p w
  = ({| fs := fs w; denied := denied w; trace := trace w ++ [MakeDirs p] |}, inr ()).
Proof.
  intros Hp. unfold makedirs, emit, stat. repeat (rewrite bind_run; simpl).
  by rewrite Hp.
Qed.

Lemma save_free p pages w :
  fs w !! p = None → p ∉ denied w →
  save p pages w
  = ({| fs := <[p := File (PageText <$> pages)]> (fs w); denied := denied w;
        trace := trace w ++ [Save p pages] |}, inr ()).
Proof.
  intros Hp Hd. unfold save, write_file, emit, stat, refused, put.
  repeat (rewrite bind_run; simpl). rewrite Hp. simpl.
  repeat (rewrite bind_run; simpl). by rewrite bool_decide_eq_false_2.
Qed.

Section Extract.
Context `{Unicode} (E : env).

(** A log line leaves the application log behind, where it may be written. *)
Lemma log_run cb m w :
  ∃ w', log E cb m w = (w', inr ())
        ∧ quiet E w w'
        ∧ (APP_LOG_PATH E ∉ denied w → is_Some (fs w' !! APP_LOG_PATH E)).
Proof.
  destruct (log_quiet E cb m w) as (w' & [] & Hrun & Hq).
  exists w'. split; [done|]. split; [done|]. intros Hd.
  revert Hrun. unfold log, write_app_log, try_except, emit, stat, refused, put, raise.
  repeat (rewrite bind_run; simpl).
  rewrite (bool_decide_eq_false_2 _ Hd).
  destruct (fs w !! APP_LOG_PATH E) as [[|data]|] eqn:Hn; simpl;
    repeat (rewrite bind_run; simpl); destruct cb; simpl;
    intros [= <-]; simpl; rewrite ?lookup_insert_eq; by eauto.
Qed.

(** One extraction and its log line, in a storage that refuses nothing and
    holds the application log. *)
Lemma extract_and_log doc out_dir out_name a b (line : path → msg) cb w :
  denied w = ∅ → is_Some (fs w !! APP_LOG_PATH E) →
  ∃ w' final_path,
    (final_path ← extract_to doc out_dir out_name a b; log E cb (line final_path)) w
    = (w', inr ())
    ∧ fs w !! final_path = None
    ∧ fs w' !! final_path = Some (File (PageText <$> slice a (b + 1) doc))
    ∧ saves [(final_path, slice a (b + 1) doc)] w w'
    ∧ (final_path = join out_dir out_name
       ∨ ∃ k, (1 ≤ k)%nat
              ∧ final_path = numbered (splitext (join out_dir out_name)).1
                               (splitext (join out_dir out_name)).2 k)
    ∧ denied w' = ∅
    ∧ is_Some (fs w' !! APP_LOG_PATH E)
    ∧ ∀ q, is_Some (fs w !! q) → is_Some (fs w' !! q).
Proof.
  intros Hd Happ. unfold extract_to, get_unique_path.
  repeat (rewrite bind_run; cbn [fst snd]).
  set (final_path := unique_path (fs w) (join out_dir out_name)).
  assert (Hfree : fs w !! final_path = None)
    by apply exists_in_false, unique_path_free.
  rewrite save_free by (done || (rewrite Hd; set_solver)).
  unfold mret, M_ret. cbv iota beta.
  match goal with
  | |- context [log E cb (line final_path) ?w3] =>
      destruct (log_run cb (line final_path) w3) as (w4 & -> & Hq & Happ4)
  end.
  destruct Hq as (Hd4 & Hf4 & _ & evs & Ht4 & Hevs & _).
  simpl in Hd4, Hf4, Ht4, Happ4.
  assert (Hne : final_path ≠ APP_LOG_PATH E).
  { intros Heq. rewrite Heq in Hfree. rewrite Hfree in Happ. by destruct Happ. }
  exists w4, final_path. split; [done|]. split; [done|].
  split; [by rewrite Hf4, lookup_insert_eq|].
  split.
  { unfold saves. rewrite Ht4, !saved_app, (saved_logs evs) by done.
    simpl. by rewrite app_nil_r. }
  split.
  { subst final_path. unfold unique_path.
    destruct (exists_in (fs w) (join out_dir out_name)); cbn [negb]; [|by left].
    right. destruct (splitext (join out_dir out_name)) as [root ext]. cbn [fst snd].
    destruct (probe_first_free (fs w) (numbered root ext) (numbered_inj root ext))
      as (k & Hk & Hp & _). exists k. by rewrite Hp. }
  split; [by rewrite Hd4|].
  assert (Happ' : is_Some (fs w4 !! APP_LOG_PATH E)) by (apply Happ4; rewrite Hd; set_solver).
  split; [done|].
  intros q Hq. destruct (decide (q = APP_LOG_PATH E)) as [->|Hq']; [done|].
  rewrite Hf4 by done. destruct (decide (q = final_path)) as [->|Hq''].
  - by rewrite lookup_insert_eq.
  - by rewrite lookup_insert_ne.
Qed.


(** The folder is opened, or the failure to open it is logged. *)
Lemma auto_open_run out_dir cb w :
  ∃ w',
    try_except (popen E out_dir) (log E cb AutoOpenFailed) w = (w', inr ())
    ∧ saves [] w w'
    ∧ (∀ p, p ≠ APP_LOG_PATH E → fs w' !! p = fs w !! p)
    ∧ (∀ q, is_Some (fs w !! q) → is_Some (fs w' !! q)).
Proof.
  unfold try_except, popen. rewrite bind_run. simpl.
  destruct (has_opener E); simpl.
  - eexists. split; [reflexivity|]. simpl.
    split; [unfold saves; simpl; by rewrite saved_app, !app_nil_r|]. done.
  - match goal with
    | |- context [log E cb AutoOpenFailed ?w1] =>
        destruct (log_quiet E cb AutoOpenFailed w1) as (w' & [] & -> & Hq)
    end.
    exists w'. split; [done|].
    pose proof (quiet_saves _ _ _ Hq) as Hs.
    pose proof (quiet_grows _ _ _ Hq) as (_ & _ & evs & Ht).
    destruct Hq as (_ & Hf & Hdir & evs' & _ & _ & Happ). simpl in *.
    split; [unfold saves in *; simpl in *; by rewrite Hs, saved_app, !app_nil_r|].
    split; [done|].
    intros q Hq. destruct (decide (q = APP_LOG_PATH E)) as [->|Hne]; [|by rewrite Hf].
    rewrite Happ. unfold appended. simpl.
    destruct (fs w !! APP_LOG_PATH E) as [[|data]|]; [by eexists..|by destruct Hq].
Qed.

Lemma slice_single (doc : list str) (i : Z) (text : str) :
  0 ≤ i → doc !! Z.to_nat i = Some text → slice i (i + 1) doc = [text].
Proof.
  intros Hi Hl. unfold slice. rewrite Z2Nat.inj_add by lia.
  change (Z.to_nat 1) with 1%nat. rewrite Nat.add_1_r.
  rewrite (take_S_r _ _ _ Hl).
  apply lookup_lt_Some in Hl as Hlt.
  rewrite drop_app_length'; [done|]. rewrite length_take. lia.
Qed.

(** The start of [extract_pages] in a storage that refuses nothing and holds
    the output directory: the start line and [os.makedirs]. *)
Lemma extract_start inp_path out_dir cb w :
  fs w !! out_dir = Some Dir → denied w = ∅ →
  ∃ w2,
    (log E cb (ExtractStarted inp_path);; makedirs out_dir) w = (w2, inr ())
    ∧ denied w2 = ∅
    ∧ is_Some (fs w2 !! APP_LOG_PATH E)
    ∧ (∀ p, p ≠ APP_LOG_PATH E → fs w2 !! p = fs w !! p)
    ∧ saves [] w w2.
Proof.
  intros Hdir Hd. rewrite bind_run.
  destruct (log_run cb (ExtractStarted inp_path) w) as (w1 & -> & Hq & Happ).
  pose proof (quiet_saves _ _ _ Hq) as Hs.
  pose proof (quiet_grows _ _ _ Hq) as (_ & Hdirs & _).
  destruct Hq as (Hd1 & Hf1 & _).
  rewrite (makedirs_dir out_dir w1) by auto.
  eexists. split; [reflexivity|]. simpl.
  split; [congruence|].
  split; [apply Happ; rewrite Hd; set_solver|].
  split; [done|].
  unfold saves in *. simpl. by rewrite saved_app, Hs, !app_nil_r.
Qed.

(** X15: a single page is extracted to a new file.  In a storage that
    refuses nothing and holds the output directory, [extract_pages] with a
    single page number from 1 to the number of pages, whatever the range
    fields and [per_page] hold, returns; it saved one document, the page of
    that number alone, at a path at which nothing existed: the path
    [<base>_page_<p>.pdf] in the output directory, or that path with a
    counter; the file is there when the call returns. *)
Theorem extract_single_page inp_path doc out_dir single_page range_from range_to
    (per_page auto_open log_callback : bool) (w : world) (p : Z) :
  single_page ≠ [] → int single_page = Some p → 1 ≤ p ≤ Z.of_nat (length doc) →
  fs w !! out_dir = Some Dir → denied w = ∅ →
  let base_path :=
    join out_dir ((splitext (basename inp_path)).1 ++ u "_page_" ++ str_of_Z p
                    ++ u ".pdf") in
  ∃ w' final_path text,
    extract_pages E inp_path doc out_dir single_page range_from range_to
      per_page auto_open log_callback w = (w', inr ())
    ∧ doc !! Z.to_nat (p - 1) = Some text
    ∧ fs w !! final_path = None
    ∧ fs w' !! final_path = Some (File [PageText text])
    ∧ saves [(final_path, [text])] w w'
    ∧ (final_path = base_path
       ∨ ∃ k, (1 ≤ k)%nat
              ∧ final_path = numbered (splitext base_path).1 (splitext base_path).2 k).
Proof.
  intros Hs Hint Hp Hdir Hd base_path.
  destruct (lookup_lt_is_Some_2 doc (Z.to_nat (p - 1)) ltac:(lia)) as [text Htext].
  pose proof (slice_single doc (p - 1) text ltac:(lia) Htext) as Hslice.
  destruct (extract_start inp_path out_dir log_callback w Hdir Hd)
    as (w2 & Hstart & Hd2 & Happ2 & Hf2 & Hs2).
  rewrite bind_run in Hstart.
  unfold extract_pages. rewrite bind_run.
  destruct (log E log_callback (ExtractStarted inp_path) w) as [w1 [e|[]]];
    [discriminate Hstart|].
  replace (Z.of_nat (length doc) =? 0) with false by (symmetry; apply Z.eqb_neq; lia).
  rewrite bind_run, Hstart. rewrite bind_run.
  rewrite (bool_decide_eq_false_2 _ Hs). cbn [negb]. rewrite Hint.
  replace ((p <? 1) || (Z.of_nat (length doc) <? p)) with false
    by (symmetry; apply orb_false_iff; rewrite !Z.ltb_ge; lia).
  match goal with
  | |- context [extract_to doc out_dir ?name ?a ?b] =>
      destruct (extract_and_log doc out_dir name a b (ExtractedSingle p) log_callback
                  w2 Hd2 Happ2)
        as (w4 & final_path & Hrun & Hfree & Hfile & Hsaved & Hname & _)
  end.
  rewrite Hrun. rewrite Hslice in Hfile, Hsaved.
  assert (Hne : final_path ≠ APP_LOG_PATH E).
  { intros Heq. rewrite Heq in Hfree. rewrite Hfree in Happ2. by destruct Happ2. }
  assert (Hfree0 : fs w !! final_path = None) by (by rewrite <- Hf2).
  destruct (auto_open_run out_dir log_callback w4) as (w5 & Hopen & Hs5 & Hf5 & _).
  destruct auto_open; cbv iota beta.
  - rewrite Hopen. exists w5, final_path, text. split; [done|].
    split; [done|]. split; [done|]. split; [by rewrite Hf5|]. split; [|done].
    apply (saves_after _ w w4 w5); [by eapply saves_before|done].
  - exists w4, final_path, text.
    split; [done|]. split; [done|]. split; [done|]. split; [done|]. split; [|done].
    by eapply saves_before.
Qed.


(** X16: a range of pages is extracted to one new file.  In a storage that
    refuses nothing and holds the output directory, [extract_pages] without
    a single page, without [per_page] and with a range [a] to [b],
    [1 <= a <= b <= total], returns; it saved one document, the [b - a + 1]
    pages from [a] to [b] in order, at a path at which nothing existed:
    [<base>_pages_<a>-<b>.pdf] in the output directory, or that path with a
    counter; the file is there when the call returns. *)
Theorem extract_page_range inp_path doc out_dir single_page range_from range_to
    (auto_open log_callback : bool) (w : world) (a b : Z) :
  single_page = [] → range_from ≠ [] → range_to ≠ [] →
  int range_from = Some a → int range_to = Some b →
  1 ≤ a ≤ b → b ≤ Z.of_nat (length doc) →
  fs w !! out_dir = Some Dir → denied w = ∅ →
  let base_path :=
    join out_dir ((splitext (basename inp_path)).1 ++ u "_pages_" ++ str_of_Z a
                    ++ u "-" ++ str_of_Z b ++ u ".pdf") in
  ∃ w' final_path,
    extract_pages E inp_path doc out_dir single_page range_from range_to
      false auto_open log_callback w = (w', inr ())
    ∧ fs w !! final_path = None
    ∧ fs w' !! final_path = Some (File (PageText <$> slice (a - 1) b doc))
    ∧ Z.of_nat (length (slice (a - 1) b doc)) = b - a + 1
    ∧ saves [(final_path, slice (a - 1) b doc)] w w'
    ∧ (final_path = base_path
       ∨ ∃ k, (1 ≤ k)%nat
              ∧ final_path = numbered (splitext base_path).1 (splitext base_path).2 k).
Proof.
  intros Hs Hfrom Hto Ha Hb Hab Hlen Hdir Hd base_path.
  destruct (extract_start inp_path out_dir log_callback w Hdir Hd)
    as (w2 & Hstart & Hd2 & Happ2 & Hf2 & Hs2).
  rewrite bind_run in Hstart.
  unfold extract_pages. rewrite bind_run.
  destruct (log E log_callback (ExtractStarted inp_path) w) as [w1 [e|[]]];
    [discriminate Hstart|].
  replace (Z.of_nat (length doc) =? 0) with false by (symmetry; apply Z.eqb_neq; lia).
  rewrite bind_run, Hstart. rewrite bind_run.
  rewrite (bool_decide_eq_true_2 _ Hs). cbn [negb].
  rewrite (bool_decide_eq_false_2 _ Hfrom), (bool_decide_eq_false_2 _ Hto).
  cbn [negb andb]. rewrite Ha, Hb.
  replace ((a <? 1) || (Z.of_nat (length doc) <? b) || (b <? a)) with false
    by (symmetry; rewrite !orb_false_iff, !Z.ltb_ge; lia).
  match goal with
  | |- context [extract_to doc out_dir ?name ?x ?y] =>
      destruct (extract_and_log doc out_dir name x y (ExtractedPages a b) log_callback
                  w2 Hd2 Happ2)
        as (w4 & final_path & Hrun & Hfree & Hfile & Hsaved & Hname & _)
  end.
  rewrite Hrun. replace (b - 1 + 1) with b in Hfile, Hsaved by lia.
  assert (Hne : final_path ≠ APP_LOG_PATH E).
  { intros Heq. rewrite Heq in Hfree. rewrite Hfree in Happ2. by destruct Happ2. }
  assert (Hfree0 : fs w !! final_path = None) by (by rewrite <- Hf2).
  assert (Hl : Z.of_nat (length (slice (a - 1) b doc)) = b - a + 1).
  { unfold slice. rewrite length_drop, length_take. lia. }
  destruct (auto_open_run out_dir log_callback w4) as (w5 & Hopen & Hs5 & Hf5 & _).
  destruct auto_open; cbv iota beta.
  - rewrite Hopen. exists w5, final_path. split; [done|].
    split; [done|]. split; [by rewrite Hf5|]. split; [done|]. split; [|done].
    apply (saves_after _ w w4 w5); [by eapply saves_before|done].
  - exists w4, final_path.
    split; [done|]. split; [done|]. split; [done|]. split; [done|]. split; [|done].
    by eapply saves_before.
Qed.

(** The loop of [extract_pages] over the pages of a range. *)
Lemma per_page_loop doc out_dir base_name cb (ps : list Z) (texts : list str) w :
  denied w = ∅ → is_Some (fs w !! APP_LOG_PATH E) →
  Forall2 (λ p text, 1 ≤ p ∧ doc !! Z.to_nat (p - 1) = Some text) ps texts →
  ∃ w' us paths,
    mapM (λ p,
      final_path ← extract_to doc out_dir
                     (base_name ++ u "_page_" ++ str_of_Z p ++ u ".pdf") (p - 1) (p - 1);
      log E cb (ExtractedPage p final_path)) ps w = (w', inr us)
    ∧ saves (zip paths ((λ text, [text]) <$> texts)) w w'
    ∧ length paths = length texts
    ∧ Forall (λ q, fs w !! q = None) paths
    ∧ NoDup paths
    ∧ (∀ q, is_Some (fs w !! q) → is_Some (fs w' !! q))
    ∧ Forall (λ q, is_Some (fs w' !! q)) paths.
Proof.
  intros Hd Happ Hps. revert w Hd Happ.
  induction Hps as [|p text ps texts [Hp Htext] _ IH]; intros w Hd Happ.
  - exists w, [], []. split; [done|]. split; [unfold saves; by rewrite app_nil_r|].
    repeat split; try done; constructor.
  - cbn [mapM]. rewrite bind_run.
    match goal with
    | |- context [extract_to doc out_dir ?name ?x ?y] =>
        destruct (extract_and_log doc out_dir name x y (ExtractedPage p) cb w Hd Happ)
          as (w4 & final_path & Hrun & Hfree & Hfile & Hsaved & _ & Hd4 & Happ4 & Hdom)
    end.
    rewrite Hrun. rewrite (slice_single doc (p - 1) text) in Hsaved by (done || lia).
    destruct (IH w4 Hd4 Happ4)
      as (w' & us & paths & Hloop & Hsaves & Hlen & Hfrees & Hnd & Hdom' & Hex).
    rewrite bind_run, Hloop. simpl.
    exists w', (() :: us), (final_path :: paths). split; [done|].
    split; [apply (saves_trans [_] _ _ _ _ Hsaved Hsaves)|].
    split; [simpl; by rewrite Hlen|].
    split.
    { constructor; [done|]. eapply Forall_impl; [exact Hfrees|].
      intros q Hq. simpl in Hq. destruct (fs w !! q) eqn:Hwq; [|done].
      destruct (Hdom q) as [? Hq']; [by eexists|]. congruence. }
    split.
    { constructor; [|done]. intros Hin.
      eapply Forall_forall in Hfrees; [|exact Hin]. simpl in Hfrees.
      rewrite Hfile in Hfrees. discriminate Hfrees. }
    split; [auto|].
    constructor; [|done]. apply Hdom'. by rewrite Hfile.
Qed.

(** X17: with [per_page], every page of the range goes to a file of its
    own.  In a storage that refuses nothing and holds the output directory,
    [extract_pages] without a single page and with a range [a] to [b],
    [1 <= a <= b <= total], returns; it saved [b - a + 1] documents of one
    page each, the pages from [a] to [b] in order, at paths that differ from
    one another, at which nothing existed before the call and something
    exists after it. *)
Theorem extract_page_range_per_page inp_path doc out_dir single_page range_from
    range_to (auto_open log_callback : bool) (w : world) (a b : Z) :
  single_page = [] → range_from ≠ [] → range_to ≠ [] →
  int range_from = Some a → int range_to = Some b →
  1 ≤ a ≤ b → b ≤ Z.of_nat (length doc) →
  fs w !! out_dir = Some Dir → denied w = ∅ →
  ∃ w' paths,
    extract_pages E inp_path doc out_dir single_page range_from range_to
      true auto_open log_callback w = (w', inr ())
    ∧ saves (zip paths ((λ text, [text]) <$> slice (a - 1) b doc)) w w'
    ∧ Z.of_nat (length paths) = b - a + 1
    ∧ NoDup paths
    ∧ Forall (λ q, fs w !! q = None ∧ is_Some (fs w' !! q)) paths.
Proof.
  intros Hs Hfrom Hto Ha Hb Hab Hlen Hdir Hd.
  destruct (extract_start inp_path out_dir log_callback w Hdir Hd)
    as (w2 & Hstart & Hd2 & Happ2 & Hf2 & Hs2).
  rewrite bind_run in Hstart.
  unfold extract_pages. rewrite bind_run.
  destruct (log E log_callback (ExtractStarted inp_path) w) as [w1 [e|[]]];
    [discriminate Hstart|].
  replace (Z.of_nat (length doc) =? 0) with false by (symmetry; apply Z.eqb_neq; lia).
  rewrite bind_run, Hstart. rewrite bind_run.
  rewrite (bool_decide_eq_true_2 _ Hs). cbn [negb].
  rewrite (bool_decide_eq_false_2 _ Hfrom), (bool_decide_eq_false_2 _ Hto).
  cbn [negb andb]. rewrite Ha, Hb.
  replace ((a <? 1) || (Z.of_nat (length doc) <? b) || (b <? a)) with false
    by (symmetry; rewrite !orb_false_iff, !Z.ltb_ge; lia).
  assert (Hl : Z.of_nat (length (slice (a - 1) b doc)) = b - a + 1).
  { unfold slice. rewrite length_drop, length_take. lia. }
  assert (Hpages : Forall2 (λ p text, 1 ≤ p ∧ doc !! Z.to_nat (p - 1) = Some text)
                     (seqZ a (b + 1 - a)) (slice (a - 1) b doc)).
  { apply Forall2_same_length_lookup_2.
    - apply Nat2Z.inj. rewrite length_seqZ, Hl. lia.
    - intros i p text Hp Ht. apply lookup_seqZ in Hp as [-> Hi].
      split; [lia|]. unfold slice in Ht.
      rewrite lookup_drop in Ht. apply lookup_take_Some in Ht as [Ht _].
      rewrite <- Ht. f_equal. lia. }
  rewrite bind_run.
  destruct (per_page_loop doc out_dir (splitext (basename inp_path)).1 log_callback
              _ _ w2 Hd2 Happ2 Hpages)
    as (w4 & us & paths & Hloop & Hsaves & Hlenp & Hfrees & Hnd & Hdom & Hex).
  rewrite Hloop. unfold mret at 1, M_ret at 1. cbv iota beta.
  assert (Hfrees0 : Forall (λ q, fs w !! q = None ∧ is_Some (fs w4 !! q)) paths).
  { apply Forall_forall. intros q Hq.
    eapply Forall_forall in Hfrees; [|exact Hq]. eapply Forall_forall in Hex; [|exact Hq].
    split; [|done]. simpl in Hfrees. rewrite <- Hf2; [done|]. intros Heq.
    rewrite Heq in Hfrees. rewrite Hfrees in Happ2. by destruct Happ2. }
  destruct (auto_open_run out_dir log_callback w4) as (w5 & Hopen & Hs5 & _ & Hdom5).
  destruct auto_open; cbv iota beta.
  - rewrite Hopen. exists w5, paths. split; [done|].
    split; [|split; [lia|split; [done|]]].
    + apply (saves_after _ w w4 w5); [by eapply saves_before|done].
    + eapply Forall_impl; [exact Hfrees0|]. intros q [Hq1 Hq2]. split; [done|].
      by apply Hdom5.
  - exists w4, paths. split; [done|].
    split; [by eapply saves_before|]. split; [lia|]. done.
Qed.


(** X18: a document without pages is only logged.  On a document of no
    page [split_pdf_full], in either mode, returns the summary of zeros
    without an audit path, and [extract_pages] returns, whatever the other
    arguments; both did nothing but log: no directory was made, and the
    storage changed at the application log only. *)
Theorem empty_document_only_logs inp_path out_dir file_pattern folder_pattern
    single_page range_from range_to
    (save_to_folders safe_mode per_page auto_open log_callback : bool) (w : world) :
  (∃ w',
     split_pdf_full E inp_path [] out_dir file_pattern folder_pattern
       save_to_folders safe_mode auto_open log_callback w
     = (w', inr {| total := 0; r_success := 0; r_failed := 0; audit_path := None;
                   r_audit_rows := []; r_decisions := [] |})
     ∧ quiet E w w')
  ∧ (∃ w',
       extract_pages E inp_path [] out_dir single_page range_from range_to
         per_page auto_open log_callback w = (w', inr ())
       ∧ quiet E w w').
Proof.
  split.
  - unfold split_pdf_full. cbn [length]. rewrite bool_decide_eq_true_2 by done.
    rewrite bind_run.
    destruct (log_quiet E log_callback (SplitStarted inp_path) w) as (w1 & [] & -> & Hq1).
    rewrite bind_run.
    destruct (log_quiet E log_callback NoPages w1) as (w2 & [] & -> & Hq2).
    exists w2. split; [done|]. by etrans.
  - unfold extract_pages. change (Z.of_nat (length (@nil str)) =? 0) with true.
    cbv iota. rewrite bind_run.
    destruct (log_quiet E log_callback (ExtractStarted inp_path) w) as (w1 & [] & -> & Hq1).
    destruct (log_quiet E log_callback NoPages w1) as (w2 & [] & -> & Hq2).
    exists w2. split; [done|]. by etrans.
Qed.

End Extract.
End ExtractFacts.

(** ** Extractions in a small world *)

Module ExtractWitnesses.
Import Py OsPath Pattern World Effects Engine Frame ExtractFacts Example.

Lemma extract_single_page_witness :
  let w := {| fs := {[ u "out" := Dir ]}; denied := ∅; trace := [] |} in
  ∃ w', extract_pages (H := latin) E0 (u "in.pdf") one_page (u "out") (u "1") [] []
          false false false w = (w', inr ()).
Proof.
  intros w.
  destruct (extract_single_page (H := latin) E0 (u "in.pdf") one_page (u "out") (u "1")
              [] [] false false false w 1)
    as (w' & final_path & text & Hrun & _).
  - discriminate.
  - reflexivity.
  - simpl. lia.
  - reflexivity.
  - reflexivity.
  - exists w'. exact Hrun.
Defined.

Lemma extract_page_range_witness :
  let w := {| fs := {[ u "out" := Dir ]}; denied := ∅; trace := [] |} in
  ∃ w', extract_pages (H := latin) E0 (u "in.pdf") [u "A"; u "B"; u "C"] (u "out") []
          (u "2") (u "3") false false false w = (w', inr ()).
Proof.
  intros w.
  destruct (extract_page_range (H := latin) E0 (u "in.pdf") [u "A"; u "B"; u "C"]
              (u "out") [] (u "2") (u "3") false false w 2 3)
    as (w' & final_path & Hrun & _).
  - reflexivity.
  - discriminate.
  - discriminate.
  - reflexivity.
  - reflexivity.
  - lia.
  - simpl. lia.
  - reflexivity.
  - reflexivity.
  - exists w'. exact Hrun.
Defined.

Lemma extract_page_range_per_page_witness :
  let w := {| fs := {[ u "out" := Dir ]}; denied := ∅; trace := [] |} in
  ∃ w', extract_pages (H := latin) E0 (u "in.pdf") [u "A"; u "B"; u "C"] (u "out") []
          (u "2") (u "3") true false false w = (w', inr ()).
Proof.
  intros w.
  destruct (extract_page_range_per_page (H := latin) E0 (u "in.pdf")
              [u "A"; u "B"; u "C"] (u "out") [] (u "2") (u "3") false false w 2 3)
    as (w' & paths & Hrun & _).
  - reflexivity.
  - discriminate.
  - discriminate.
  - reflexivity.
  - reflexivity.
  - lia.
  - simpl. lia.
  - reflexivity.
  - reflexivity.
  - exists w'. exact Hrun.
Defined.

End ExtractWitnesses.
